(** * Job recommendation service and agentic answer pipeline

    A shallow embedding of
      - [backend/app/services/job_recommendation_service.py]
        (class [JobRecommendationService]) and
      - [backend/app/services/agentic_rag_service.py]
    together with the properties their specification states.

    Python values that cross a boundary unchecked (HTTP bodies, the stored
    candidate data, the cache file, job dictionaries) are modelled as
    dynamically typed [value]s, so that a [TypeError] or [AttributeError] of
    the program is a [Raise] of the model.  Exceptions are an error monad,
    the network, the file system, the clock and the language model are
    components of an explicit world.

    What the model leaves out:
      - output: [print] writes nothing the program reads back; only the
        evaluation of its arguments is kept, where it can raise;
      - sharing: [rank_jobs_by_relevance] writes two entries into each job
        dictionary in place.  The entries are a function of the job's
        title and description and of the profile, which the loop does not
        change, so a dictionary that occurs twice in the list is scored
        twice with the same result, and dictionaries are values here;
      - the order in which a [set] is iterated: a set is a duplicate-free
        list in order of first insertion;
      - failures of the environment that are no [Exception] raised by the
        code paths below: creating the cache directory and writing the
        file, building the chat client, the embedding model and the vector
        indices are taken to succeed;
      - characters outside ASCII: a string is a sequence of bytes, lowered
        and stripped as ASCII;
      - arguments of another type than their annotation or default:
        [max_age_hours] and [max_results] are integers.  A [datetime] is
        an instant together with whether it carries an offset, and a
        [timedelta] has its range, so that the [TypeError] and the
        [OverflowError] of the cache's age test are in the model. *)

From Stdlib Require Import ZArith List String Ascii Bool Arith Lia.
From Stdlib Require Import Permutation Sorted.
From Stdlib Require DecimalString DecimalZ.
Import ListNotations.

Set Implicit Arguments.
Set Warnings "-register-all".
Local Open Scope string_scope.
Local Open Scope Z_scope.
Local Open Scope list_scope.

(* ===================================================================== *)
(** * The Python runtime fragment the two services use *)
(* ===================================================================== *)

Module Py.

(** Exceptions.  All of them are subclasses of [Exception], so a clause
    [except Exception] (and a bare [except:]) catches every one. *)
Inductive exn : Type :=
| TypeError
| AttributeError
| KeyError
| IndexError
| ValueError
| OverflowError
| NameError (name : string)
| JSONDecodeError
| RequestException.

Inductive exc (A : Type) : Type :=
| Ok (a : A)
| Raise (e : exn).
Arguments Ok {A} a.
Arguments Raise {A} e.

Definition ebind {A B} (c : exc A) (k : A -> exc B) : exc B :=
  match c with
  | Ok a => k a
  | Raise e => Raise e
  end.

Declare Scope exc_scope.
Delimit Scope exc_scope with exc.
Notation "x <- c ;; k" := (ebind c (fun x => k))
  (at level 61, c at next level, right associativity) : exc_scope.
Notation "' pat <- c ;; k" := (ebind c (fun x => match x with pat => k end))
  (at level 61, pat pattern, c at next level, right associativity) : exc_scope.

(** [for x in xs: body] where the body may raise and threads an
    accumulator. *)
Fixpoint efold {A S} (body : S -> A -> exc S) (xs : list A) (s : S) : exc S :=
  match xs with
  | [] => Ok s
  | x :: xs' => ebind (body s x) (efold body xs')
  end.

(** [[f(x) for x in xs]] where [f] may raise. *)
Fixpoint emap {A B} (f : A -> exc B) (xs : list A) : exc (list B) :=
  match xs with
  | [] => Ok []
  | x :: xs' =>
      ebind (f x) (fun y => ebind (emap f xs') (fun ys => Ok (y :: ys)))
  end.

(** ** Strings

    A [str] is a [string]; its characters are the 256 one-byte characters,
    and case folding and white space follow ASCII. *)

Definition is_upper (c : ascii) : bool :=
  let n := nat_of_ascii c in ((65 <=? n) && (n <=? 90))%nat.

Definition lower_ascii (c : ascii) : ascii :=
  if is_upper c then ascii_of_nat (nat_of_ascii c + 32) else c.

(** [s.lower()] *)
Fixpoint lower (s : string) : string :=
  match s with
  | EmptyString => EmptyString
  | String c s' => String (lower_ascii c) (lower s')
  end.

(** [str.isspace] on one character: tab, line feed, vertical tab, form
    feed, carriage return, the four separators 28..31, and space. *)
Definition is_space (c : ascii) : bool :=
  let n := nat_of_ascii c in
  (((9 <=? n) && (n <=? 13)) || ((28 <=? n) && (n <=? 32)))%nat.

Definition is_empty (s : string) : bool :=
  match s with EmptyString => true | _ => false end.

Fixpoint lstrip (s : string) : string :=
  match s with
  | EmptyString => EmptyString
  | String c s' => if is_space c then lstrip s' else s
  end.

Fixpoint rstrip (s : string) : string :=
  match s with
  | EmptyString => EmptyString
  | String c s' =>
      let r := rstrip s' in
      if is_space c && is_empty r then EmptyString else String c r
  end.

(** [s.strip()] *)
Definition strip (s : string) : string := rstrip (lstrip s).

(** No character of [s] is white space. *)
Fixpoint no_space (s : string) : bool :=
  match s with
  | EmptyString => true
  | String c s' => negb (is_space c) && no_space s'
  end.

(** [s.startswith(p)] *)
Fixpoint starts_with (p s : string) : bool :=
  match p, s with
  | EmptyString, _ => true
  | String _ _, EmptyString => false
  | String a p', String b s' => Ascii.eqb a b && starts_with p' s'
  end.

(** [needle in hay] on two strings: substring test. *)
Fixpoint contains (needle hay : string) : bool :=
  starts_with needle hay ||
  match hay with
  | EmptyString => false
  | String _ hay' => contains needle hay'
  end.

(** [s.split()]: the maximal runs of characters that are not white space.
    [cur] is the run being read, in reverse. *)
Fixpoint split_go (s : string) (cur : list ascii) : list string :=
  let flush (rest : list string) :=
    match cur with
    | [] => rest
    | _ => string_of_list_ascii (rev cur) :: rest
    end in
  match s with
  | EmptyString => flush []
  | String c s' =>
      if is_space c then flush (split_go s' []) else split_go s' (c :: cur)
  end.

Definition split (s : string) : list string := split_go s [].

(** [list(s)]: the one-character strings of [s]. *)
Fixpoint chars (s : string) : list string :=
  match s with
  | EmptyString => []
  | String c s' => String c EmptyString :: chars s'
  end.

(** A Python [set] of strings is kept as a duplicate-free list in the
    order of first insertion.  The iteration order of a real set is
    unspecified; no statement below depends on it. *)
Fixpoint mem (x : string) (l : list string) : bool :=
  match l with
  | [] => false
  | y :: l' => String.eqb x y || mem x l'
  end.

Definition set_add (x : string) (s : list string) : list string :=
  if mem x s then s else s ++ [x].

(** [s.update(xs)] *)
Definition set_update (s xs : list string) : list string :=
  fold_left (fun acc x => set_add x acc) xs s.

(** [set(xs)] *)
Definition set_of (xs : list string) : list string := set_update [] xs.

(** ** Dynamically typed values

    The values JSON can carry: [None], booleans, integers, floats (kept
    opaque, by the 64 bits of their IEEE 754 double), strings, lists, and
    dictionaries with string keys.  A dictionary keeps its items in
    insertion order. *)
Inductive value : Type :=
| VNone
| VBool (b : bool)
| VInt (z : Z)
| VFloat (bits : Z)
| VStr (s : string)
| VList (l : list value)
| VDict (d : list (string * value)).

Definition dict : Type := list (string * value).

(** [d.get(k)], [None] of the model standing for "no such key". *)
Fixpoint lookup (k : string) (d : dict) : option value :=
  match d with
  | [] => None
  | (k', v) :: d' => if String.eqb k k' then Some v else lookup k d'
  end.

(** [d.get(k, default)] on a dictionary. *)
Definition get_or (d : dict) (k : string) (default : value) : value :=
  match lookup k d with
  | Some v => v
  | None => default
  end.

(** [d[k]] on a dictionary. *)
Definition getitem (d : dict) (k : string) : exc value :=
  match lookup k d with
  | Some v => Ok v
  | None => Raise KeyError
  end.

(** [d[k] = v]: an existing key keeps its place, a new one goes last. *)
Fixpoint setitem (k : string) (v : value) (d : dict) : dict :=
  match d with
  | [] => [(k, v)]
  | (k', v') :: d' =>
      if String.eqb k k' then (k, v) :: d' else (k', v') :: setitem k v d'
  end.

(** [x.get(k, default)] on any value: only a dictionary has the method. *)
Definition get_method (x : value) (k : string) (default : value) : exc value :=
  match x with
  | VDict d => Ok (get_or d k default)
  | _ => Raise AttributeError
  end.

(** [x.lower()] on any value: only a string has the method. *)
Definition lower_method (x : value) : exc string :=
  match x with
  | VStr s => Ok (lower s)
  | _ => Raise AttributeError
  end.

(** [x.split()] on any value. *)
Definition split_method (x : value) : exc (list string) :=
  match x with
  | VStr s => Ok (split s)
  | _ => Raise AttributeError
  end.

(** Truth value of [x] in [if x], [not x], [x or y].  The two floats that
    are false are the zeros: all bits clear, or the sign bit alone. *)
Definition truthy (x : value) : bool :=
  match x with
  | VNone => false
  | VBool b => b
  | VInt z => negb (z =? 0)
  | VFloat bits => negb ((bits =? 0) || (bits =? 2 ^ 63))
  | VStr s => negb (is_empty s)
  | VList l => match l with [] => false | _ => true end
  | VDict d => match d with [] => false | _ => true end
  end.

(** [x or y] *)
Definition or_else (x y : value) : value := if truthy x then x else y.

(** [for e in x]: a list yields its elements, a string its characters, a
    dictionary its keys; nothing else is iterable. *)
Definition iter (x : value) : exc (list value) :=
  match x with
  | VList l => Ok l
  | VStr s => Ok (map VStr (chars s))
  | VDict d => Ok (map (fun kv => VStr (fst kv)) d)
  | _ => Raise TypeError
  end.

(** [len(x)] *)
Definition len (x : value) : exc Z :=
  match x with
  | VList l => Ok (Z.of_nat (List.length l))
  | VStr s => Ok (Z.of_nat (String.length s))
  | VDict d => Ok (Z.of_nat (List.length d))
  | _ => Raise TypeError
  end.

(** [x + y] where one operand is known to be a string: the other one has
    to be a string too. *)
Definition add_str (x y : value) : exc value :=
  match x, y with
  | VStr a, VStr b => Ok (VStr (a ++ b)%string)
  | _, _ => Raise TypeError
  end.

(** [l[:n]] on a list, for any integer [n] (a negative one counts from the
    end). *)
Definition slice_to {A} (l : list A) (n : Z) : list A :=
  if 0 <=? n then firstn (Z.to_nat n) l
  else firstn (Z.to_nat (Z.of_nat (List.length l) + n)) l.

(** [x[:n]] on any value: lists and strings can be sliced. *)
Definition slice_method (x : value) (n : Z) : exc value :=
  match x with
  | VList l => Ok (VList (slice_to l n))
  | VStr s =>
      Ok (VStr (string_of_list_ascii (slice_to (list_ascii_of_string s) n)))
  | _ => Raise TypeError
  end.

(** [x[0]] on any value read from JSON. *)
Definition first_item (x : value) : exc value :=
  match x with
  | VList (v :: _) => Ok v
  | VList [] => Raise IndexError
  | VStr (String c _) => Ok (VStr (String c EmptyString))
  | VStr EmptyString => Raise IndexError
  | VDict _ => Raise KeyError
  | _ => Raise TypeError
  end.

(** [sorted(xs, key=key, reverse=True)].  The keys are computed once, in
    input order; the sort is stable, and with [reverse=True] elements with
    equal keys still keep their input order.  A stable sort is determined
    by that property, so insertion from the right stands for the library's
    algorithm: [x] goes in front of the first element whose key is not
    larger. *)
Fixpoint insert_desc {A} (x : Z * A) (l : list (Z * A)) : list (Z * A) :=
  match l with
  | [] => [x]
  | y :: l' => if fst y <=? fst x then x :: y :: l' else y :: insert_desc x l'
  end.

Definition sort_desc {A} (l : list (Z * A)) : list (Z * A) :=
  fold_right insert_desc [] l.

Definition sorted_reverse {A} (key : A -> exc Z) (xs : list A) : exc (list A) :=
  ebind (emap key xs) (fun ks => Ok (map snd (sort_desc (combine ks xs)))).

End Py.

(* ===================================================================== *)
(** * [job_recommendation_service.py] *)
(* ===================================================================== *)

Module JobRecommendationService.
Import Py.

(** ** The world the service runs in *)

(** What [requests.get(url, headers=..., params=..., timeout=8)] sends. *)
Record request : Type := {
  url : string;
  headers : list (string * string);
  params : list (string * value)
}.

(** What [r.json()] finds in the body of a response. *)
Inductive body : Type :=
| JsonBody (v : value)
| BadBody.

(** The outcome of one request: the transport fails (timeout, connection
    error), or a response arrives. *)
Inductive reply : Type :=
| NoReply
| Response (b : body).

(** The content of the cache file, as [json.load] reads it: a JSON
    document, or text that is not one. *)
Inductive file : Type :=
| JsonFile (v : value)
| TextFile (raw : string).

Record world : Type := {
  RAPIDAPI_KEY : option string;    (* os.getenv("RAPIDAPI_KEY") *)
  ADZUNA_APP_ID : option string;   (* os.getenv("ADZUNA_APP_ID") *)
  ADZUNA_API_KEY : option string;  (* os.getenv("ADZUNA_API_KEY") *)
  http : nat -> request -> reply;  (* the n-th request and its outcome *)
  sent : list request;             (* the requests made so far *)
  jobs_cache : option file;        (* data/recommended_jobs.json *)
  utcnow : Z                       (* datetime.utcnow(), in microseconds *)
}.

(** Computations that may raise and that read and change the world.  A
    raised exception keeps the changes made before it. *)
Definition M (A : Type) : Type := world -> exc A * world.

Definition ret {A} (a : A) : M A := fun w => (Ok a, w).

Definition bind {A B} (c : M A) (k : A -> M B) : M B :=
  fun w =>
    match c w with
    | (Ok a, w') => k a w'
    | (Raise e, w') => (Raise e, w')
    end.

Definition lift {A} (c : exc A) : M A := fun w => (c, w).

(** [try: body / except Exception as e: handler] *)
Definition try_except {A} (body : M A) (handler : exn -> M A) : M A :=
  fun w =>
    match body w with
    | (Ok a, w') => (Ok a, w')
    | (Raise e, w') => handler e w'
    end.

Declare Scope io_scope.
Delimit Scope io_scope with io.
Notation "x <- c ;; k" := (bind c (fun x => k))
  (at level 61, c at next level, right associativity) : io_scope.

Fixpoint mfold {A S} (body : S -> A -> M S) (xs : list A) (s : S) : M S :=
  match xs with
  | [] => ret s
  | x :: xs' => bind (body s x) (mfold body xs')
  end.

Definition requests_get (req : request) : M body :=
  fun w =>
    let w' := {| RAPIDAPI_KEY := RAPIDAPI_KEY w;
                 ADZUNA_APP_ID := ADZUNA_APP_ID w;
                 ADZUNA_API_KEY := ADZUNA_API_KEY w;
                 http := http w;
                 sent := sent w ++ [req];
                 jobs_cache := jobs_cache w;
                 utcnow := utcnow w |} in
    match http w (List.length (sent w)) req with
    | NoReply => (Raise RequestException, w')
    | Response b => (Ok b, w')
    end.

(** [r.json()] *)
Definition json (b : body) : exc value :=
  match b with
  | JsonBody v => Ok v
  | BadBody => Raise JSONDecodeError
  end.

(** [not KEY] for a module constant read with [os.getenv]: unset or
    empty. *)
Definition unset (k : option string) : bool :=
  match k with
  | None => true
  | Some s => is_empty s
  end.

Definition key_text (k : option string) : string :=
  match k with
  | None => EmptyString
  | Some s => s
  end.

(** ** The profile *)

Record profile : Type := {
  skills : list string;
  experience_years : Z;
  education_level : value;
  preferred_locations : list string;
  job_titles : list string
}.

Local Open Scope exc_scope.

(** [skills += x]: extends the list with whatever iterating [x] yields. *)
Definition extend (acc : list value) (x : value) : exc (list value) :=
  l <- iter x ;; Ok (acc ++ l).

(** [[s.lower() for s in skills if isinstance(s, str)]] *)
Fixpoint lowered_strings (l : list value) : list string :=
  match l with
  | [] => []
  | VStr s :: l' => lower s :: lowered_strings l'
  | _ :: l' => lowered_strings l'
  end.

(** [any(x in t for x in xs)] *)
Definition any_in (xs : list string) (t : string) : bool :=
  existsb (fun x => contains x t) xs.

(** The three keyword groups of the title inference and the titles each
    one stands for. *)
Definition title_groups : list (list string * list string) :=
  [ (["ml"; "machine learning"; "data"], ["ML Engineer"; "Data Scientist"]);
    (["ai"; "nlp"; "rag"; "llm"; "langchain"], ["AI Engineer"; "NLP Engineer"]);
    (["full stack"; "backend"; "web"], ["Software Engineer"; "Backend Engineer"]) ].

(** The three [if any(...): inferred_titles.update(...)] of one project
    title [t]. *)
Definition infer_from_title (inferred : list string) (t : string) : list string :=
  fold_left
    (fun acc g => if any_in (fst g) t then set_update acc (snd g) else acc)
    title_groups inferred.

Definition fallback_titles : list string :=
  set_of ["Software Engineer"; "AI Engineer"].

(** [proj.get("title", "").lower()] *)
Definition lowered_title (proj : value) : exc string :=
  t <- get_method proj "title" (VStr "") ;;
  lower_method t.

(** The loop [for proj in user_data.get("projects", [])] of the title
    inference, from the empty set. *)
Definition infer_titles (projects : list value) : exc (list string) :=
  efold (fun inferred proj =>
           t <- lowered_title proj ;;
           Ok (infer_from_title inferred t))
        projects [].

(** The loop over the project technologies. *)
Definition project_skills (projects : list value) (sk : list value)
  : exc (list value) :=
  efold (fun sk p =>
           tech <- get_method p "technologies" (VList []) ;;
           extend sk tech)
        projects sk.

(** The loop over the experience entries and their bullet points. *)
Definition experience_skills (experience : list value) (sk : list value)
  : exc (list value) :=
  efold (fun sk exp =>
           items <- get_method exp "items" (VList []) ;;
           items <- iter items ;;
           efold (fun sk item =>
                    words <- split_method item ;;
                    Ok (sk ++ map VStr
                          (filter (fun w => (3 <? String.length w)%nat) words)))
                 items sk)
        experience sk.

Definition extract_user_profile (user_data : dict) : exc profile :=
  (* direct fields *)
  sk <- extend [] (get_or user_data "languages" (VList [])) ;;
  sk <- extend sk (get_or user_data "tools" (VList [])) ;;
  sk <- extend sk (get_or user_data "coursework" (VList [])) ;;
  (* project technologies *)
  projects <- iter (get_or user_data "projects" (VList [])) ;;
  sk <- project_skills projects sk ;;
  (* words of the experience bullet points *)
  experience <- iter (get_or user_data "experience" (VList [])) ;;
  sk <- experience_skills experience sk ;;
  let skills := set_of (lowered_strings sk) in
  years <- len (get_or user_data "experience" (VList [])) ;;
  let education := get_or user_data "education" (VList []) in
  level <- (if truthy education
            then e0 <- first_item education ;;
                 get_method e0 "degree" (VStr "B.Tech")
            else Ok (VStr "")) ;;
  (* job titles inferred from the project titles *)
  projects <- iter (get_or user_data "projects" (VList [])) ;;
  inferred <- infer_titles projects ;;
  let inferred :=
    match inferred with
    | [] => fallback_titles
    | _ => inferred
    end in
  Ok {| skills := skills;
        experience_years := years;
        education_level := level;
        preferred_locations := ["Remote"; "India"];
        job_titles := inferred |}.

(** ** The three job sources *)

Definition jsearch_row (job : value) : exc dict :=
  title <- get_method job "job_title" (VStr "") ;;
  company <- get_method job "employer_name" (VStr "") ;;
  city <- get_method job "job_city" (VStr "") ;;
  country <- get_method job "job_country" (VStr "") ;;
  description <- get_method job "job_description" (VStr "") ;;
  link <- get_method job "job_apply_link" (VStr "") ;;
  posted <- get_method job "job_posted_at_datetime_utc" (VStr "") ;;
  Ok [ ("title", title); ("company", company);
       ("location", or_else city country);
       ("description", description); ("apply_link", link);
       ("posted_date", posted); ("source", VStr "JSearch") ].

(** The body of the [try] of [search_jobs_jsearch]. *)
Definition jsearch_try (query : string) : M (list dict) :=
  fun w =>
    bind (requests_get
            {| url := "https://jsearch.p.rapidapi.com/search";
               headers := [ ("X-RapidAPI-Key", key_text (RAPIDAPI_KEY w));
                            ("X-RapidAPI-Host", "jsearch.p.rapidapi.com") ];
               params := [ ("query", VStr query); ("page", VInt 1) ] |})
         (fun r => lift (data <- json r ;;
                         rows <- get_method data "data" (VList []) ;;
                         rows <- iter rows ;;
                         emap jsearch_row rows))
         w.

Definition search_jobs_jsearch (query : string) (limit : Z) : M (list dict) :=
  fun w =>
    if unset (RAPIDAPI_KEY w) then ret [] w
    else try_except (jsearch_try query) (fun _ => ret []) w.

Definition remoteok_row (title : value) (job : value) : exc dict :=
  company <- get_method job "company" (VStr "") ;;
  location <- get_method job "location" (VStr "Remote") ;;
  description <- get_method job "description" (VStr "") ;;
  link <- get_method job "url" (VStr "") ;;
  posted <- get_method job "date" (VStr "") ;;
  Ok [ ("title", title); ("company", company); ("location", location);
       ("description", description); ("apply_link", link);
       ("posted_date", posted); ("source", VStr "RemoteOK") ].

(** [jobs_data[1:]]: a list or a string without its first item.  Slicing
    anything else raises. *)
Definition slice_from_1 (x : value) : exc value :=
  match x with
  | VList l => Ok (VList (skipn 1 l))
  | VStr s => Ok (VStr (match s with EmptyString => s | String _ s' => s' end))
  | _ => Raise TypeError
  end.

Definition remoteok_try (keywords : string) : M (list dict) :=
  bind (requests_get {| url := "https://remoteok.com/api";
                        headers := []; params := [] |})
       (fun r => lift (jobs_data <- json r ;;
                       rest <- slice_from_1 jobs_data ;;
                       rows <- iter rest ;;
                       efold (fun jobs job =>
                                title <- get_method job "position" (VStr "") ;;
                                t <- lower_method title ;;
                                if contains (lower keywords) t
                                then row <- remoteok_row title job ;;
                                     Ok (jobs ++ [row])
                                else Ok jobs)
                             rows [])).

Definition search_jobs_remoteok (keywords : string) : M (list dict) :=
  try_except (remoteok_try keywords) (fun _ => ret []).

Definition adzuna_row (job : value) : exc dict :=
  title <- get_method job "title" (VStr "") ;;
  company <- get_method job "company" (VDict []) ;;
  company <- get_method company "display_name" (VStr "") ;;
  location <- get_method job "location" (VDict []) ;;
  location <- get_method location "display_name" (VStr "") ;;
  description <- get_method job "description" (VStr "") ;;
  link <- get_method job "redirect_url" (VStr "") ;;
  posted <- get_method job "created" (VStr "") ;;
  Ok [ ("title", title); ("company", company); ("location", location);
       ("description", description); ("apply_link", link);
       ("posted_date", posted); ("source", VStr "Adzuna") ].

Definition adzuna_try (keywords : string) : M (list dict) :=
  fun w =>
    bind (requests_get
            {| url := "https://api.adzuna.com/v1/api/jobs/in/search/1";
               headers := [];
               params := [ ("app_id", VStr (key_text (ADZUNA_APP_ID w)));
                           ("app_key", VStr (key_text (ADZUNA_API_KEY w)));
                           ("what", VStr keywords);
                           ("content-type", VStr "application/json") ] |})
         (fun r => lift (data <- json r ;;
                         rows <- get_method data "results" (VList []) ;;
                         rows <- iter rows ;;
                         emap adzuna_row rows))
         w.

Definition search_jobs_adzuna (keywords : string) : M (list dict) :=
  fun w =>
    if unset (ADZUNA_APP_ID w) || unset (ADZUNA_API_KEY w) then ret [] w
    else try_except (adzuna_try keywords) (fun _ => ret []) w.

(** ** Ranking *)

Definition synonyms : list (string * list string) :=
  [ ("python", ["python"; "pandas"; "numpy"; "fastapi"; "flask"]);
    ("docker", ["docker"; "container"; "kubernetes"; "k8s"]);
    ("machine learning", ["ml"; "machine learning"; "deep learning"; "neural"]);
    ("ai", ["ai"; "llm"; "rag"; "gpt"; "bert"]);
    ("nlp", ["nlp"; "transformer"; "token"]);
    ("cloud", ["aws"; "azure"; "gcp"; "cloud"]);
    ("database", ["postgres"; "mysql"; "mongodb"; "sql"]) ].

(** The inner loop [for w in words: if w in text: ...; break]: does it
    reach its [if] body? *)
Fixpoint first_hit (words : list string) (text : string) : bool :=
  match words with
  | [] => false
  | w :: ws => if contains w text then true else first_hit ws text
  end.

(** One round of [for key, words in synonyms.items()], on the pair
    [(fuzzy_matches, score)]. *)
Definition fuzzy_step (text : string) (st : list string * Z)
    (entry : string * list string) : list string * Z :=
  if first_hit (snd entry) text
  then (fst st ++ [fst entry], snd st + 5)
  else st.

(** The search text of a job: title, one space, description, lowered. *)
Definition search_text (job : dict) : exc string :=
  t <- add_str (get_or job "title" (VStr "")) (VStr " ") ;;
  t <- add_str t (get_or job "description" (VStr "")) ;;
  lower_method t.

(** The body of [for job in jobs]: the job with its two new entries. *)
Definition score_job (p : profile) (job : dict) : exc dict :=
  let user_skills := set_of (skills p) in
  text <- search_text job ;;
  (* 1. exact match *)
  let exact_matches := filter (fun s => contains s text) user_skills in
  let score := 0 + Z.of_nat (List.length exact_matches) * 10 in
  (* 2. fuzzy match *)
  let fs := fold_left (fuzzy_step text) synonyms ([], score) in
  let fuzzy_matches := fst fs in
  (* 3. job title relevance *)
  score <- efold (fun score title =>
                    jt <- lower_method (get_or job "title" (VStr "")) ;;
                    Ok (if contains (lower title) jt then score + 15 else score))
                 (job_titles p) (snd fs) ;;
  let job := setitem "matched_skills"
               (VList (map VStr (set_of (exact_matches ++ fuzzy_matches)))) job in
  let job := setitem "relevance_score" (VInt score) job in
  (* print("DESC:", job.get("description")[:300]) *)
  _ <- slice_method (get_or job "description" VNone) 300 ;;
  Ok job.

(** [lambda x: x["relevance_score"]].  After the loop every job carries an
    integer there. *)
Definition relevance_key (x : dict) : exc Z :=
  v <- getitem x "relevance_score" ;;
  match v with
  | VInt z => Ok z
  | _ => Raise TypeError
  end.

Definition rank_jobs_by_relevance (jobs : list dict) (p : profile)
  : exc (list dict) :=
  scored <- emap (score_job p) jobs ;;
  sorted_reverse relevance_key scored.

(** ** Removing duplicates (the [unique] loop of [get_recommended_jobs]) *)

Definition key : Type := (string * string)%type.

Definition key_eqb (a b : key) : bool :=
  String.eqb (fst a) (fst b) && String.eqb (snd a) (snd b).

(** [(job["title"].lower(), job["company"].lower())] *)
Definition job_key (job : dict) : exc key :=
  t <- getitem job "title" ;;
  t <- lower_method t ;;
  c <- getitem job "company" ;;
  c <- lower_method c ;;
  Ok (t, c).

(** [key in unique] *)
Definition has_key (k : key) (unique : list (key * dict)) : bool :=
  existsb (fun e => key_eqb k (fst e)) unique.

Definition dedupe_step (unique : list (key * dict)) (job : dict)
  : exc (list (key * dict)) :=
  k <- job_key job ;;
  Ok (if has_key k unique then unique else unique ++ [(k, job)]).

(** The loop, followed by [list(unique.values())]. *)
Definition dedupe (all_jobs : list dict) : exc (list dict) :=
  unique <- efold dedupe_step all_jobs [] ;;
  Ok (map snd unique).

(** ** The names the module defines *)

Definition module_globals : list string :=
  [ "os"; "json"; "requests"; "List"; "Dict"; "datetime"; "timedelta";
    "load_dotenv"; "RAPIDAPI_KEY"; "ADZUNA_APP_ID"; "ADZUNA_API_KEY";
    "JobRecommendationService" ].

Definition builtins : list string :=
  [ "print"; "len"; "set"; "list"; "any"; "sorted"; "isinstance"; "str";
    "open"; "Exception" ].

(** Evaluating a name inside a method: locals, then module globals, then
    builtins. *)
Definition name_lookup (locals : list string) (name : string) : exc unit :=
  if mem name locals || mem name module_globals || mem name builtins
  then Ok tt
  else Raise (NameError name).

(** ** Cache and main entry point *)

Definition with_jobs_cache (w : world) (f : option file) : world :=
  {| RAPIDAPI_KEY := RAPIDAPI_KEY w;
     ADZUNA_APP_ID := ADZUNA_APP_ID w;
     ADZUNA_API_KEY := ADZUNA_API_KEY w;
     http := http w;
     sent := sent w;
     jobs_cache := f;
     utcnow := utcnow w |}.

(** [timedelta(hours=1)], in microseconds. *)
Definition hour : Z := 3600000000.

(** [data[k]] on what [json.load] returned. *)
Definition subscript (x : value) (k : string) : exc value :=
  match x with
  | VDict d => getitem d k
  | _ => Raise TypeError
  end.

(** [json.load(f)] *)
Definition json_load (f : file) : exc value :=
  match f with
  | JsonFile v => Ok v
  | TextFile _ => Raise JSONDecodeError
  end.

(** The loop [for title in profile["job_titles"][:3]] over the three
    sources. *)
Definition fetch_jobs (titles : list string) : M (list dict) :=
  mfold (fun all_jobs title =>
           bind (search_jobs_jsearch title 15) (fun a =>
           bind (search_jobs_remoteok title) (fun b =>
           bind (search_jobs_adzuna title) (fun c =>
           ret (((all_jobs ++ a) ++ b) ++ c)))))
        titles [].

(** A [datetime]: an instant counted in microseconds, either naive (without
    [tzinfo], as [datetime.utcnow()] returns it) or aware of its offset
    from UTC. *)
Inductive datetime : Type :=
| Naive (t : Z)
| Aware (t : Z).

(** Whether [timedelta] can hold a span of [h] hours: its days, rounded
    down, are at most 999999999 in magnitude. *)
Definition span_hours (h : Z) : bool :=
  (-999999999 <=? h / 24) && (h / 24 <=? 999999999).

(** [timedelta(hours=h)], in microseconds. *)
Definition timedelta_hours (h : Z) : exc Z :=
  if span_hours h then Ok (h * hour) else Raise OverflowError.

(** [now - ts] for the naive [now] that [datetime.utcnow()] returns: a
    naive and an aware [datetime] cannot be subtracted. *)
Definition since (now : Z) (ts : datetime) : exc Z :=
  match ts with
  | Naive t => Ok (now - t)
  | Aware _ => Raise TypeError
  end.

Section Datetime.

(** [datetime.isoformat] on the naive instants the service writes, and
    [datetime.fromisoformat], which yields an aware [datetime] for a text
    that carries an offset. *)
Variable isoformat : Z -> string.
Variable fromisoformat : string -> option datetime.

Definition parse_timestamp (x : value) : exc datetime :=
  match x with
  | VStr s =>
      match fromisoformat s with
      | Some t => Ok t
      | None => Raise ValueError
      end
  | _ => Raise TypeError
  end.

(** Creating the directory and opening the file for writing are taken to
    succeed; the values of the model are all JSON serialisable. *)
Definition save_jobs_cache (jobs : list dict) : M unit :=
  fun w =>
    let data := VDict [ ("timestamp", VStr (isoformat (utcnow w)));
                        ("jobs", VList (map VDict jobs)) ] in
    (Ok tt, with_jobs_cache w (Some (JsonFile data))).

Definition load_jobs_cache (max_age_hours : Z) : M value :=
  fun w =>
    match jobs_cache w with
    | None => (Ok (VList []), w)
    | Some f =>
        lift (data <- json_load f ;;
              ts <- subscript data "timestamp" ;;
              ts <- parse_timestamp ts ;;
              age <- since (utcnow w) ts ;;
              limit <- timedelta_hours max_age_hours ;;
              if age >? limit
              then Ok (VList [])
              else subscript data "jobs")
             w
    end.

Definition get_recommended_jobs (user_data : dict) (max_results : Z)
  : M (list dict) :=
  let locals := [ "self"; "user_data"; "max_results"; "profile"; "all_jobs";
                  "title"; "unique"; "job"; "key"; "ranked" ] in
  bind (lift (extract_user_profile user_data)) (fun p =>
  bind (fetch_jobs (firstn 3 (job_titles p))) (fun all_jobs =>
  bind (lift (dedupe all_jobs)) (fun unique =>
  bind (lift (rank_jobs_by_relevance unique p)) (fun ranked =>
  bind (save_jobs_cache (slice_to ranked max_results)) (fun _ =>
  (* st.write("PROFILE DEBUG:", profile) *)
  bind (lift (name_lookup locals "st")) (fun _ =>
  ret (slice_to ranked max_results))))))).

End Datetime.

(** ** The data model: well-shaped inputs

    A job posting of the data model has strings for its fields.  Ranking
    reads the title and the description, removing duplicates reads the
    title and the company. *)
Definition has_str (k : string) (job : dict) : bool :=
  match lookup k job with
  | Some (VStr _) => true
  | _ => false
  end.

Definition rankable (job : dict) : bool :=
  has_str "title" job && has_str "description" job.




(** Candidate data as the forms of the application store it. *)
Record project : Type := {
  project_title : string;
  technologies : list string
}.

Record candidate : Type := {
  languages : list string;
  tools : list string;
  coursework : list string;
  projects : list project;
  experience : list (list string);   (* the bullet points of each entry *)
  education : list string            (* the degree of each entry *)
}.

Definition strs (l : list string) : value := VList (map VStr l).

Definition candidate_data (c : candidate) : dict :=
  [ ("education", VList (map (fun d => VDict [("degree", VStr d)]) (education c)));
    ("languages", strs (languages c));
    ("tools", strs (tools c));
    ("coursework", strs (coursework c));
    ("experience",
       VList (map (fun items => VDict [("items", strs items)]) (experience c)));
    ("projects",
       VList (map (fun p => VDict [ ("title", VStr (project_title p));
                                    ("technologies", strs (technologies p)) ])
                  (projects c))) ].

(** The next request brings no JSON body: the transport fails, or the
    body does not parse. *)
Definition no_json (w : world) : Prop :=
  forall req v, http w (List.length (sent w)) req <> Response (JsonBody v).

(** The stored score and matches of a ranked job. *)
Definition relevance_score (job : dict) : Z :=
  match lookup "relevance_score" job with
  | Some (VInt z) => z
  | _ => 0
  end.

Definition matched_skills (job : dict) : list value :=
  match lookup "matched_skills" job with
  | Some (VList l) => l
  | _ => []
  end.

(** A codec for instants, one that the statements about the cache can be
    run with: the decimal numeral of the microsecond count. *)
Definition decimal_isoformat (t : Z) : string :=
  DecimalString.NilEmpty.string_of_int (Z.to_int t).

Definition decimal_fromisoformat (s : string) : option datetime :=
  option_map (fun i => Naive (Z.of_int i))
             (DecimalString.NilEmpty.int_of_string s).


(** The text the statement of the fuzzy signal names: title and
    description concatenated, lowered.  (The code searches [search_text],
    which puts a space between the two.) *)
Definition concatenated_text (t d : string) : string :=
  lower (t ++ d)%string.

(** ** Sample inputs the statements are run on *)

(** No credentials, a network that is down, no cache file. *)
Definition offline : world :=
  {| RAPIDAPI_KEY := None;
     ADZUNA_APP_ID := None;
     ADZUNA_API_KEY := None;
     http := fun _ _ => NoReply;
     sent := [];
     jobs_cache := None;
     utcnow := 0 |}.

(** All credentials set, every request answered by a body that is not
    JSON. *)
Definition garbled : world :=
  {| RAPIDAPI_KEY := Some "k1";
     ADZUNA_APP_ID := Some "id";
     ADZUNA_API_KEY := Some "k2";
     http := fun _ _ => Response BadBody;
     sent := [];
     jobs_cache := None;
     utcnow := 0 |}.

(** The same world some hours later, with a given cache file. *)
Definition later (w : world) (hours : Z) (f : option file) : world :=
  {| RAPIDAPI_KEY := RAPIDAPI_KEY w;
     ADZUNA_APP_ID := ADZUNA_APP_ID w;
     ADZUNA_API_KEY := ADZUNA_API_KEY w;
     http := http w;
     sent := sent w;
     jobs_cache := f;
     utcnow := utcnow w + hours * hour |}.

(** A cache file cut short while it was being written. *)
Definition corrupted : world :=
  later offline 1 (Some (TextFile "{ timestamp: 2026-11-04T09:5")).

Definition posting (title company description : string) : dict :=
  [ ("title", VStr title); ("company", VStr company);
    ("location", VStr "Remote"); ("description", VStr description);
    ("apply_link", VStr ""); ("posted_date", VStr "");
    ("source", VStr "JSearch") ].

Definition sample_profile : profile :=
  {| skills := ["python"; "docker"];
     experience_years := 1;
     education_level := VStr "B.Tech";
     preferred_locations := ["Remote"; "India"];
     job_titles := ["Software Engineer"; "AI Engineer"] |}.

Definition sample_jobs : list dict :=
  [ posting "Accountant" "Ledger Ltd" "Bookkeeping and payroll";
    posting "Backend Python Developer" "Acme" "using Docker and Kubernetes";
    posting "Gardener" "Green Co" "Lawns and hedges";
    posting "backend python developer" "ACME" "a second advert" ].

Definition sample_candidate : candidate :=
  {| languages := ["Python"; "C++"];
     tools := ["Docker"];
     coursework := ["Operating Systems"];
     projects := [ {| project_title := "RAG chatbot";
                      technologies := ["LangChain"; "FAISS"] |} ];
     experience := [ ["Built data pipelines with Airflow"] ];
     education := ["B.Tech"] |}.

(** ** Further vocabulary of the statements *)

(** What scoring needs of a job: a title that is a string where there is
    one, and a description that is a string. *)
Definition scorable (job : dict) : bool :=
  match lookup "title" job with
  | Some (VStr _) | None => true
  | Some _ => false
  end && has_str "description" job.

(** The job that scoring returns for a job with title [t] and description
    [d]: ten for each profile skill in the search text, five for each
    concept group with a synonym in it, fifteen for each profile title in
    the job title. *)
Definition scored_as (p : profile) (job : dict) (t d : string) : dict :=
  let text := lower ((t ++ " ") ++ d)%string in
  let exact := filter (fun s => contains s text) (set_of (skills p)) in
  let hits := filter (fun e => first_hit (snd e) text) synonyms in
  let titles := filter (fun title => contains (lower title) (lower t))
                       (job_titles p) in
  setitem "relevance_score"
    (VInt (10 * Z.of_nat (List.length exact)
           + 5 * Z.of_nat (List.length hits)
           + 15 * Z.of_nat (List.length titles)))
    (setitem "matched_skills"
       (VList (map VStr (set_of (exact ++ map fst hits)))) job).

(** The values that cannot be iterated: [None], booleans and numbers. *)
Definition scalar (x : value) : bool :=
  match x with
  | VNone | VBool _ | VInt _ | VFloat _ => true
  | _ => false
  end.

Definition is_dict (x : value) : bool :=
  match x with
  | VDict _ => true
  | _ => false
  end.

(** The keys of a posting as the three sources build it, in order. *)
Definition posting_keys : list string :=
  [ "title"; "company"; "location"; "description"; "apply_link";
    "posted_date"; "source" ].

(** The titles the inference can produce. *)
Definition known_titles : list string :=
  [ "ML Engineer"; "Data Scientist"; "AI Engineer"; "NLP Engineer";
    "Software Engineer"; "Backend Engineer" ].

(** [w'] is [w] after at most [n] more requests: nothing but the log of
    requests has changed. *)
Definition sends_at_most (n : nat) (w w' : world) : Prop :=
  RAPIDAPI_KEY w' = RAPIDAPI_KEY w
  /\ ADZUNA_APP_ID w' = ADZUNA_APP_ID w
  /\ ADZUNA_API_KEY w' = ADZUNA_API_KEY w
  /\ http w' = http w
  /\ jobs_cache w' = jobs_cache w
  /\ utcnow w' = utcnow w
  /\ exists extra, sent w' = sent w ++ extra /\ (List.length extra <= n)%nat.

(** A world whose first request is answered by the given JSON body. *)
Definition answering (v : value) : world :=
  {| RAPIDAPI_KEY := Some "k1";
     ADZUNA_APP_ID := Some "id";
     ADZUNA_API_KEY := Some "k2";
     http := fun _ _ => Response (JsonBody v);
     sent := [];
     jobs_cache := None;
     utcnow := 0 |}.

End JobRecommendationService.

(* ===================================================================== *)
(** * The job section of [frontend/streamlit_app.py] *)
(* ===================================================================== *)

Module StreamlitApp.
Import Py JobRecommendationService.

Section FetchJobs.

Variable isoformat : Z -> string.
Variable fromisoformat : string -> option datetime.

(** The [try] block of the Fetch Jobs button, up to the value of
    [recommended_jobs]: the cache if it yields something true, a fresh
    search otherwise. *)
Definition fetch_jobs_try (user_data : dict) : M value :=
  bind (load_jobs_cache fromisoformat 24) (fun cached_jobs =>
  if truthy cached_jobs then ret cached_jobs
  else bind (get_recommended_jobs isoformat user_data 15) (fun jobs =>
       ret (VList (map VDict jobs)))).

(** One press of the button.  [recommended] is
    [st.session_state["recommended_jobs"]] before, if set; the result is
    that entry after, and the exception reported by [st.error], if any.
    The entry is written before [len(recommended_jobs)] is formatted into
    the success message. *)
Definition fetch_jobs_click (user_data : dict) (recommended : option value)
  : world -> (option value * option exn) * world :=
  fun w =>
    match fetch_jobs_try user_data w with
    | (Ok jobs, w') =>
        ((Some jobs,
          match len jobs with
          | Ok _ => None
          | Raise e => Some e
          end), w')
    | (Raise e, w') => ((recommended, Some e), w')
    end.

End FetchJobs.

End StreamlitApp.

(* ===================================================================== *)
(** * [agentic_rag_service.py] *)
(* ===================================================================== *)

Module AgenticRag.
Import Py.

(** ** The world the pipeline runs in *)

(** A chat client as [get_random_llm] builds it.  The temperature is kept
    in tenths: 7 stands for 0.7. *)
Record client : Type := {
  api_key : string;
  model : string;
  temperature : Z
}.

(** One [llm.invoke(prompt)]. *)
Record call : Type := {
  by_client : client;
  prompt : string
}.

Record world : Type := {
  groq_keys : list (option string);       (* GROQ_API_KEY_1 .. GROQ_API_KEY_5 *)
  random : nat -> nat;                    (* the n-th draw of the generator *)
  draws : nat;                            (* draws made so far *)
  llm : nat -> call -> option string;     (* the n-th call: its content, or a failure *)
  calls : list call;                      (* the calls made so far *)
  resume_index : option (string -> list string);   (* the index, if its path exists *)
  project_index : option (string -> list string)
}.

Definition M (A : Type) : Type := world -> exc A * world.

Definition ret {A} (a : A) : M A := fun w => (Ok a, w).

Definition bind {A B} (c : M A) (k : A -> M B) : M B :=
  fun w =>
    match c w with
    | (Ok a, w') => k a w'
    | (Raise e, w') => (Raise e, w')
    end.

Declare Scope rag_scope.
Delimit Scope rag_scope with rag.
Notation "x <- c ;; k" := (bind c (fun x => k))
  (at level 61, c at next level, right associativity) : rag_scope.
Notation "' pat <- c ;; k" := (bind c (fun x => match x with pat => k end))
  (at level 61, pat pattern, c at next level, right associativity) : rag_scope.

(** [[k for k in api_keys if k]] *)
Fixpoint present (keys : list (option string)) : list string :=
  match keys with
  | [] => []
  | Some k :: keys' => if is_empty k then present keys' else k :: present keys'
  | None :: keys' => present keys'
  end.

(** [random.choice(seq)]: raises on an empty sequence. *)
Definition random_choice (seq : list string) : M string :=
  fun w =>
    match seq with
    | [] => (Raise IndexError, w)
    | k0 :: _ =>
        (Ok (nth (random w (draws w) mod List.length seq) seq k0),
         {| groq_keys := groq_keys w; random := random w; draws := S (draws w);
            llm := llm w; calls := calls w;
            resume_index := resume_index w;
            project_index := project_index w |})
    end.

Definition get_random_llm (model : string) (temperature : Z) : M client :=
  fun w =>
    bind (random_choice (present (groq_keys w)))
         (fun k => ret {| api_key := k; model := model;
                          temperature := temperature |})
         w.

Definition default_model : string := "openai/gpt-oss-120b".

(** [resp = llm.invoke(prompt)] followed by
    [getattr(resp, "content", str(resp))]. *)
Definition invoke (c : client) (p : string) : M string :=
  fun w =>
    let this := {| by_client := c; prompt := p |} in
    let w' := {| groq_keys := groq_keys w; random := random w; draws := draws w;
                 llm := llm w; calls := calls w ++ [this];
                 resume_index := resume_index w;
                 project_index := project_index w |} in
    match llm w (List.length (calls w)) this with
    | Some content => (Ok content, w')
    | None => (Raise RequestException, w')
    end.

Local Open Scope string_scope.

Definition nl : string := String "010"%char EmptyString.
Definition dq : string := String "034"%char EmptyString.
(** The UTF-8 bytes of an em dash, and of the warning sign with its
    variation selector. *)
Definition em_dash : string :=
  String "226"%char (String "128"%char (String "148"%char EmptyString)).
Definition warning_sign : string :=
  String "226"%char (String "154"%char (String "160"%char
    (String "239"%char (String "184"%char (String "143"%char EmptyString))))).

(** ** Router *)

Definition router_prompt (user_query : string) : string :=
  nl ++
  "    You are a routing AI deciding which knowledge base is most relevant to the user query." ++ nl ++
  "    Knowledge bases available:" ++ nl ++
  "    1. resume " ++ em_dash ++ " contains user's education, skills, and experiences." ++ nl ++
  "    2. project " ++ em_dash ++ " contains GitHub project details and technical summaries." ++ nl ++
  nl ++
  "    Query: " ++ dq ++ user_query ++ dq ++ nl ++
  nl ++
  "    Decide which knowledge base(s) to use. Answer with either:" ++ nl ++
  "    " ++ dq ++ "resume" ++ dq ++ ", " ++ dq ++ "project" ++ dq ++ ", or "
         ++ dq ++ "both" ++ dq ++ "." ++ nl ++
  "    ".

(** What [route_query] does with the content of the router's response. *)
Definition route_decision (content : string) : string :=
  let answer := lower (strip content) in
  if contains "project" answer && contains "resume" answer then "both"
  else if contains "project" answer then "project"
  else "resume".

Definition route_query (user_query : string) : M string :=
  (llm <- get_random_llm default_model 7 ;;
   content <- invoke llm (router_prompt user_query) ;;
   ret (route_decision content))%rag.

(** ** Retriever *)

Definition no_embeddings : string :=
  warning_sign ++ " No embeddings found for the selected source.".

Definition retriever_prompt (context user_query : string) : string :=
  nl ++
  "    You are an AI assistant answering user queries based on provided context." ++ nl ++
  nl ++
  "    Context:" ++ nl ++
  "    " ++ context ++ nl ++
  nl ++
  "    Question:" ++ nl ++
  "    " ++ user_query ++ nl ++
  nl ++
  "    Provide a clear, factual, well-structured answer." ++ nl ++
  "    ".

(** [db.similarity_search(user_query, k=4)], as page contents. *)
Definition similarity_search (db : string -> list string) (q : string)
  : list string :=
  firstn 4 (db q).

(** [source in [a, "both"] and os.path.exists(path)] *)
Definition selected (source a : string) (index : option (string -> list string))
  : list (string -> list string) :=
  match index with
  | Some db =>
      if String.eqb source a || String.eqb source "both" then [db] else []
  | None => []
  end.

Definition retrieve_answer (user_query source : string) : M string :=
  fun w =>
    (llm <- get_random_llm default_model 6 ;;
     let dbs := (selected source "resume" (resume_index w)
                 ++ selected source "project" (project_index w))%list in
     match dbs with
     | [] => ret no_embeddings
     | _ =>
         let docs := flat_map (fun db => similarity_search db user_query) dbs in
         let context := String.concat (nl ++ nl) docs in
         invoke llm (retriever_prompt context user_query)
     end)%rag w.

(** ** Grader *)

(** [str(x)] inside an f-string: a string goes in as it is, anything else
    through its [repr]. *)
Definition format (repr : value -> string) (x : value) : string :=
  match x with
  | VStr s => s
  | _ => repr x
  end.

Definition grader_prompt (user_query answer : string) : string :=
  nl ++
  "    You are a strict answer evaluator." ++ nl ++
  nl ++
  "    Question: " ++ user_query ++ nl ++
  "    Answer: " ++ answer ++ nl ++
  nl ++
  "    Evaluate if the answer fully and accurately addresses the user's question." ++ nl ++
  "    Reply with JSON:" ++ nl ++
  "    {" ++ nl ++
  "      " ++ dq ++ "grade" ++ dq ++ ": " ++ dq ++ "pass" ++ dq ++ " or "
           ++ dq ++ "fail" ++ dq ++ "," ++ nl ++
  "      " ++ dq ++ "feedback" ++ dq ++ ": " ++ dq ++ "why you graded it so" ++ dq ++ nl ++
  "    }" ++ nl ++
  "    ".

(** [re.search(r'\{[\s\S]*\}', text)]: the match starts at the first
    opening brace and, the star being greedy, ends at the last closing
    brace after it. *)
Fixpoint after_first_open (s : string) : option string :=
  match s with
  | EmptyString => None
  | String c s' => if Ascii.eqb c "{"%char then Some s' else after_first_open s'
  end.

Fixpoint up_to_last_close (s : string) : option string :=
  match s with
  | EmptyString => None
  | String c s' =>
      match up_to_last_close s' with
      | Some r => Some (String c r)
      | None => if Ascii.eqb c "}"%char then Some (String c EmptyString) else None
      end
  end.

Definition brace_block (text : string) : option string :=
  match after_first_open text with
  | Some rest => option_map (String "{"%char) (up_to_last_close rest)
  | None => None
  end.

(** [x == "pass"] *)
Definition is_pass (x : value) : bool :=
  match x with
  | VStr s => String.eqb s "pass"
  | _ => false
  end.

Section Library.

(** [json.loads], and [repr] on the values that are not strings. *)
Variable json_loads : string -> option value.
Variable repr : value -> string.

(** The body of the [try] of [grade_answer]. *)
Definition grade_try (block : string) : exc (bool * value) :=
  match json_loads block with
  | Some result =>
      ebind (get_method result "grade" (VStr "fail")) (fun grade =>
      ebind (get_method result "feedback" (VStr "")) (fun feedback =>
      Ok (is_pass grade, feedback)))
  | None => Raise JSONDecodeError
  end.

(** What [grade_answer] does with the content of the grader's response. *)
Definition grade_text (text : string) : bool * value :=
  match brace_block text with
  | Some block =>
      match grade_try block with
      | Ok r => r
      | Raise _ => (false, VStr "Invalid grader output")
      end
  | None => (false, VStr "Could not parse grader response.")
  end.

Definition grade_answer (user_query answer : string) : M (bool * value) :=
  (llm <- get_random_llm default_model 0 ;;
   text <- invoke llm (grader_prompt user_query answer) ;;
   ret (grade_text text))%rag.

(** ** Main pipeline *)

Definition correction_prompt (feedback : value) : string :=
  "Your last answer was graded as insufficient because: "
  ++ format repr feedback ++ ". Please correct it.".

Definition agentic_rag_pipeline (user_query : string) : M string :=
  (source <- route_query user_query ;;
   answer <- retrieve_answer user_query source ;;
   ' (passed, feedback) <- grade_answer user_query answer ;;
   if negb passed
   then llm <- get_random_llm default_model 7 ;;
        invoke llm (correction_prompt feedback)
   else ret answer)%rag.

End Library.

(** ** Sample inputs the statements are run on *)

(** One key, a resume index, and a language model that answers the
    router, the retriever, the grader (in prose, without any JSON) and the
    correction request in turn. *)
Definition sample_world : world :=
  {| groq_keys := [Some "gsk-1"; None; Some ""; None; None];
     random := fun n => n;
     draws := 0;
     llm := fun n _ =>
              match n with
              | O => Some " Resume "
              | S O => Some "Three years of backend work."
              | S (S O) => Some "The answer looks incomplete to me."
              | _ => Some "Three years of backend work, two of them in Python."
              end;
     calls := [];
     resume_index := Some (fun _ => ["Backend engineer, 2021-2024"]);
     project_index := None |}.

(** The same world with other keys in the environment. *)
Definition with_keys (keys : list (option string)) (w : world) : world :=
  {| groq_keys := keys; random := random w; draws := draws w;
     llm := llm w; calls := calls w;
     resume_index := resume_index w; project_index := project_index w |}.

(** No key set: four variables missing, one empty. *)
Definition keyless : world :=
  with_keys [None; Some ""; None; None; None] sample_world.

(** A grader that answers with a verdict in JSON, and a parser that knows
    this one document. *)
Definition verdict : string :=
  "Here is my verdict: {" ++ dq ++ "grade" ++ dq ++ ": " ++ dq ++ "pass" ++ dq
  ++ "}".

Definition lenient : world :=
  {| groq_keys := groq_keys sample_world; random := random sample_world;
     draws := 0;
     llm := fun n c => match n with
                       | S (S O) => Some verdict
                       | _ => llm sample_world n c
                       end;
     calls := [];
     resume_index := resume_index sample_world;
     project_index := project_index sample_world |}.

Definition sample_loads (block : string) : option value :=
  if String.eqb block ("{" ++ dq ++ "grade" ++ dq ++ ": " ++ dq ++ "pass" ++ dq ++ "}")
  then Some (VDict [("grade", VStr "pass")])
  else None.

(** ** Further vocabulary of the statements *)

(** A call made with a key of the environment and the default model. *)
Definition configured (w : world) (c : call) : Prop :=
  In (Some (api_key (by_client c))) (groq_keys w)
  /\ api_key (by_client c) <> ""
  /\ model (by_client c) = default_model.

(** [w'] is [w] after between [lo] and [hi] more calls of a language
    model, all of them configured, and at most [hi] draws of a key:
    nothing but the log of calls and the count of draws has changed. *)
Definition asks (lo hi : nat) (w w' : world) : Prop :=
  groq_keys w' = groq_keys w
  /\ random w' = random w
  /\ llm w' = llm w
  /\ resume_index w' = resume_index w
  /\ project_index w' = project_index w
  /\ (draws w <= draws w' <= draws w + hi)%nat
  /\ exists extra,
       calls w' = (calls w ++ extra)%list
       /\ (lo <= List.length extra <= hi)%nat
       /\ Forall (configured w) extra.

(** Whether a character occurs in a string. *)
Fixpoint occurs (c : ascii) (s : string) : bool :=
  match s with
  | EmptyString => false
  | String x s' => Ascii.eqb x c || occurs c s'
  end.

(** The passages [retrieve_answer] puts into its prompt: up to four of
    each index that is selected and exists, the resume first. *)
Definition passages (q source : string) (w : world) : list string :=
  flat_map (fun db => similarity_search db q)
           (selected source "resume" (resume_index w)
            ++ selected source "project" (project_index w))%list.

End AgenticRag.

(* ===================================================================== *)
(** * Facts about the runtime fragment *)
(* ===================================================================== *)

Module PyFacts.
Import Py.

(** ** Dictionaries *)

Lemma lookup_setitem_same k v d : lookup k (setitem k v d) = Some v.
Proof.
  induction d as [|[k' v'] d IH]; simpl.
  - now rewrite String.eqb_refl.
  - destruct (String.eqb k k') eqn:E; simpl; rewrite ?String.eqb_refl, ?E; auto.
Qed.

Lemma lookup_setitem_other k k' v d :
  k <> k' -> lookup k (setitem k' v d) = lookup k d.
Proof.
  intros Hne. induction d as [|[k0 v0] d IH]; simpl.
  - apply String.eqb_neq in Hne. now rewrite Hne.
  - destruct (String.eqb k' k0) eqn:E; simpl.
    + apply String.eqb_eq in E. subst k0.
      apply String.eqb_neq in Hne. now rewrite Hne.
    + now rewrite IH.
Qed.

(** ** Loops that may raise *)

Lemma emap_length A B (f : A -> exc B) xs ys :
  emap f xs = Ok ys -> List.length ys = List.length xs.
Proof.
  revert ys. induction xs as [|x xs IH]; simpl; intros ys H.
  - now inversion H.
  - destruct (f x) as [y|]; simpl in H; [|discriminate].
    destruct (emap f xs) as [ys'|]; simpl in H; [|discriminate].
    inversion H; subst. simpl. now rewrite (IH ys').
Qed.

Lemma emap_Forall2 A B (f : A -> exc B) xs ys :
  emap f xs = Ok ys -> Forall2 (fun x y => f x = Ok y) xs ys.
Proof.
  revert ys. induction xs as [|x xs IH]; simpl; intros ys H.
  - inversion H. constructor.
  - destruct (f x) as [y|] eqn:Ex; simpl in H; [|discriminate].
    destruct (emap f xs) as [ys'|]; simpl in H; [|discriminate].
    inversion H; subst. constructor; auto.
Qed.

Lemma emap_total A B (f : A -> exc B) (g : A -> B) xs :
  Forall (fun x => f x = Ok (g x)) xs -> emap f xs = Ok (map g xs).
Proof.
  induction 1 as [|x xs Hx _ IH]; simpl; auto.
  now rewrite Hx, IH.
Qed.

Lemma emap_defined A B (f : A -> exc B) xs :
  Forall (fun x => exists y, f x = Ok y) xs -> exists ys, emap f xs = Ok ys.
Proof.
  induction 1 as [|x xs [y Hy] _ [ys IH]]; simpl.
  - now exists [].
  - rewrite Hy, IH. simpl. now exists (y :: ys).
Qed.

(** ** The stable descending sort *)

Section Sort.
Variable A : Type.
Implicit Types (x y : Z * A) (l : list (Z * A)).


Lemma insert_desc_perm x l : Permutation (insert_desc x l) (x :: l).
Proof.
  induction l as [|y l IH]; simpl; auto.
  destruct (fst y <=? fst x); auto.
  rewrite IH. apply perm_swap.
Qed.

Lemma sort_desc_perm l : Permutation (sort_desc l) l.
Proof.
  induction l as [|x l IH]; simpl; auto.
  rewrite insert_desc_perm. now constructor.
Qed.

Lemma insert_desc_sorted x l :
  StronglySorted (fun x y => fst y <= fst x) l -> StronglySorted (fun x y => fst y <= fst x) (insert_desc x l).
Proof.
  induction 1 as [|y l Hs IH Hy]; simpl.
  - repeat constructor.
  - destruct (Z.leb_spec (fst y) (fst x)) as [Hle|Hlt].
    + constructor; [constructor; auto|].
      constructor; [exact Hle|].
      eapply Forall_impl; [|exact Hy]. simpl. intros z Hz. lia.
    + constructor; auto.
      apply (Permutation_Forall (Permutation_sym (insert_desc_perm x l))).
      constructor; auto. lia.
Qed.

Lemma sort_desc_sorted l : StronglySorted (fun x y => fst y <= fst x) (sort_desc l).
Proof.
  induction l as [|x l IH]; simpl.
  - constructor.
  - now apply insert_desc_sorted.
Qed.

(** Stability: the elements of any one key come out in input order. *)
Lemma insert_desc_stable k x l :
  filter (fun y => fst y =? k) (insert_desc x l)
  = filter (fun y => fst y =? k) (x :: l).
Proof.
  induction l as [|y l IH]; simpl; auto.
  destruct (Z.leb_spec (fst y) (fst x)) as [Hle|Hlt]; simpl; auto.
  rewrite IH. simpl.
  destruct (Z.eqb_spec (fst y) k), (Z.eqb_spec (fst x) k); auto. lia.
Qed.

Lemma sort_desc_stable k l :
  filter (fun y => fst y =? k) (sort_desc l) = filter (fun y => fst y =? k) l.
Proof.
  induction l as [|x l IH]; simpl; auto.
  rewrite insert_desc_stable. simpl. now rewrite IH.
Qed.

(** Sorting elements by a key [f] they carry. *)
Variable f : A -> Z.


Lemma combine_decorate xs : combine (map f xs) xs = map (fun a => (f a, a)) xs.
Proof. induction xs; simpl; congruence. Qed.

Lemma decorated_perm l xs :
  Permutation l (map (fun a => (f a, a)) xs) -> Forall (fun y => fst y = f (snd y)) l.
Proof.
  intros H. apply (Permutation_Forall (Permutation_sym H)).
  apply Forall_forall. intros y Hy.
  apply in_map_iff in Hy as [a [<- _]]. reflexivity.
Qed.

Lemma filter_undecorate k l :
  Forall (fun y => fst y = f (snd y)) l ->
  filter (fun a => f a =? k) (map snd l)
  = map snd (filter (fun y => fst y =? k) l).
Proof.
  induction 1 as [|y l Hy _ IH]; simpl; auto.
  rewrite <- Hy. destruct (fst y =? k); simpl; now rewrite IH.
Qed.

Lemma sorted_undecorate l :
  Forall (fun y => fst y = f (snd y)) l ->
  StronglySorted (fun x y => fst y <= fst x) l ->
  StronglySorted (fun a b => f b <= f a) (map snd l).
Proof.
  intros Hf Hs. induction Hs as [|y l Hs IH Hy]; simpl.
  - constructor.
  - inversion Hf as [|? ? Hy0 Hl]; subst.
    constructor; auto.
    apply Forall_forall. intros b Hb.
    apply in_map_iff in Hb as [z [<- Hz]].
    rewrite Forall_forall in Hy, Hl.
    specialize (Hy z Hz). specialize (Hl z Hz). simpl in Hy.
    rewrite <- Hy0, <- Hl. exact Hy.
Qed.

Lemma map_snd_decorate xs : map snd (map (fun a => (f a, a)) xs) = xs.
Proof. rewrite map_map. simpl. apply map_id. Qed.

(** What [sorted(xs, key=f, reverse=True)] returns when the key is
    defined everywhere. *)
Lemma sorted_reverse_spec (key : A -> exc Z) xs :
  Forall (fun a => key a = Ok (f a)) xs ->
  exists out,
    sorted_reverse key xs = Ok out
    /\ Permutation out xs
    /\ StronglySorted (fun a b => f b <= f a) out
    /\ forall k, filter (fun a => f a =? k) out = filter (fun a => f a =? k) xs.
Proof.
  intros Hk. unfold sorted_reverse.
  rewrite (@emap_total _ _ key f xs Hk). simpl. rewrite combine_decorate.
  eexists. split; [reflexivity|].
  pose proof (sort_desc_perm (map (fun a => (f a, a)) xs)) as Hp.
  pose proof (decorated_perm xs Hp) as Hd.
  split; [|split].
  - rewrite <- (map_snd_decorate xs) at 2. now apply Permutation_map.
  - apply sorted_undecorate; auto. apply sort_desc_sorted.
  - intros k. rewrite filter_undecorate by exact Hd.
    rewrite sort_desc_stable.
    rewrite <- filter_undecorate, map_snd_decorate; auto.
    apply (decorated_perm xs). reflexivity.
Qed.

End Sort.

(** ** Substrings *)

Lemma string_app_assoc (a b c : string) :
  ((a ++ b) ++ c)%string = (a ++ (b ++ c))%string.
Proof. induction a as [|x a IH]; cbn; congruence. Qed.

Lemma lower_app a b : lower (a ++ b) = (lower a ++ lower b)%string.
Proof. induction a as [|x a IH]; cbn; congruence. Qed.

Lemma starts_with_prefix p : forall s,
  starts_with p s = true <-> exists r, s = (p ++ r)%string.
Proof.
  induction p as [|a p IH]; intros s.
  - destruct s; cbn; split; eauto.
  - destruct s as [|b s]; cbn [starts_with].
    + split; [discriminate|]. intros [r Hr]. discriminate.
    + rewrite andb_true_iff, IH. split.
      * intros [Hab [r ->]]. apply Ascii.eqb_eq in Hab. subst. now exists r.
      * intros [r Hr]. cbn in Hr. inversion Hr; subst.
        split; [apply Ascii.eqb_refl|now exists r].
Qed.

Lemma contains_infix n h :
  contains n h = true <-> exists pre post, h = (pre ++ n ++ post)%string.
Proof.
  induction h as [|c h IH]; cbn [contains].
  - rewrite orb_false_r, starts_with_prefix. split.
    + intros [r Hr]. now exists EmptyString, r.
    + intros (pre & post & H). destruct pre; [|discriminate].
      now exists post.
  - rewrite orb_true_iff, starts_with_prefix, IH. split.
    + intros [[r Hr]|(pre & post & ->)].
      * now exists EmptyString, r.
      * now exists (String c pre), post.
    + intros (pre & post & H). destruct pre as [|x pre].
      * left. now exists post.
      * right. cbn in H. inversion H; subst. now exists pre, post.
Qed.

Lemma contains_trans a b c :
  contains a b = true -> contains b c = true -> contains a c = true.
Proof.
  rewrite !contains_infix.
  intros (pre & post & ->) (pre' & post' & ->).
  exists (pre' ++ pre)%string, (post ++ post')%string.
  now rewrite !string_app_assoc.
Qed.

Lemma contains_lower a b :
  contains a b = true -> contains (lower a) (lower b) = true.
Proof.
  rewrite !contains_infix. intros (pre & post & ->).
  exists (lower pre), (lower post). now rewrite !lower_app.
Qed.

End PyFacts.

(* ===================================================================== *)
(** * Facts about the job recommendation service *)
(* ===================================================================== *)

Module JobFacts.
Import Py PyFacts JobRecommendationService.

Local Arguments Z.mul : simpl never.
Local Arguments Z.add : simpl never.
Local Arguments Z.of_nat : simpl never.

(** ** Scoring one job *)

Lemma has_str_lookup k job :
  has_str k job = true -> exists s, lookup k job = Some (VStr s).
Proof.
  unfold has_str. destruct (lookup k job) as [[]|]; try discriminate.
  intros _. now eexists.
Qed.

Lemma rankable_fields job :
  rankable job = true ->
  exists t d, lookup "title" job = Some (VStr t)
              /\ lookup "description" job = Some (VStr d).
Proof.
  unfold rankable. intros H. apply andb_prop in H as [Ht Hd].
  apply has_str_lookup in Ht as [t Ht]. apply has_str_lookup in Hd as [d Hd].
  now exists t, d.
Qed.

Lemma first_hit_existsb words text :
  first_hit words text = existsb (fun w => contains w text) words.
Proof.
  induction words as [|w ws IH]; simpl; auto.
  destruct (contains w text); simpl; auto.
Qed.

(** The synonym loop in closed form: one key and five points for every
    group that has a word in the text. *)
Lemma fuzzy_loop text groups acc score :
  fold_left (fuzzy_step text) groups (acc, score)
  = (acc ++ map fst (filter (fun e => first_hit (snd e) text) groups),
     score + 5 * Z.of_nat (List.length
                             (filter (fun e => first_hit (snd e) text) groups))).
Proof.
  revert acc score. induction groups as [|e groups IH]; intros acc score; simpl.
  - rewrite app_nil_r. f_equal. lia.
  - unfold fuzzy_step at 2. destruct (first_hit (snd e) text); simpl.
    + rewrite IH. rewrite <- app_assoc. simpl. f_equal. lia.
    + apply IH.
Qed.

(** The title loop in closed form. *)
Lemma title_loop job t titles score :
  lookup "title" job = Some (VStr t) ->
  efold (fun score title =>
           ebind (lower_method (get_or job "title" (VStr ""))) (fun jt =>
           Ok (if contains (lower title) jt then score + 15 else score)))
        titles score
  = Ok (score + 15 * Z.of_nat (List.length
                    (filter (fun title => contains (lower title) (lower t)) titles))).
Proof.
  intros Ht. revert score.
  induction titles as [|title titles IH]; intros score; simpl.
  - f_equal. lia.
  - unfold get_or at 1. rewrite Ht. simpl.
    destruct (contains (lower title) (lower t)); simpl; rewrite IH; f_equal; lia.
Qed.

Lemma search_text_eq job t d :
  lookup "title" job = Some (VStr t) ->
  lookup "description" job = Some (VStr d) ->
  search_text job = Ok (lower ((t ++ " ") ++ d)%string).
Proof.
  intros Ht Hd. unfold search_text, get_or. now rewrite Ht, Hd.
Qed.

(** [score_job] on a job of the data model, in closed form. *)
Lemma score_job_eq p job t d :
  lookup "title" job = Some (VStr t) ->
  lookup "description" job = Some (VStr d) ->
  let text := lower ((t ++ " ") ++ d)%string in
  let exact := filter (fun s => contains s text) (set_of (skills p)) in
  let hits := filter (fun e => first_hit (snd e) text) synonyms in
  let titles := filter (fun title => contains (lower title) (lower t)) (job_titles p) in
  score_job p job
  = Ok (setitem "relevance_score"
          (VInt (10 * Z.of_nat (List.length exact)
                 + 5 * Z.of_nat (List.length hits)
                 + 15 * Z.of_nat (List.length titles)))
          (setitem "matched_skills"
             (VList (map VStr (set_of (exact ++ map fst hits)))) job)).
Proof.
  intros Ht Hd text exact hits titles.
  unfold score_job. rewrite (search_text_eq job Ht Hd).
  cbv zeta. cbn [ebind]. fold text. fold exact.
  rewrite fuzzy_loop. fold hits. cbn [fst snd app].
  rewrite (title_loop job _ _ Ht). fold titles. cbn [ebind].
  unfold get_or.
  rewrite !lookup_setitem_other by discriminate.
  rewrite Hd. cbn [slice_method ebind]. do 3 f_equal. lia.
Qed.

Lemma score_job_defined p job :
  rankable job = true -> exists job', score_job p job = Ok job'.
Proof.
  intros H. apply rankable_fields in H as (t & d & Ht & Hd).
  eexists. apply (score_job_eq p job Ht Hd).
Qed.

(** Whenever scoring returns, the job carries an integer score. *)
Lemma score_job_key p job job' :
  score_job p job = Ok job' -> relevance_key job' = Ok (relevance_score job').
Proof.
  unfold score_job. intros H.
  destruct (search_text job) as [text|]; simpl in H; [|discriminate].
  match type of H with ebind ?c _ = _ => destruct c as [score|] end;
    simpl in H; [|discriminate].
  match type of H with ebind ?c _ = _ => destruct c as [x|] end;
    simpl in H; [|discriminate].
  inversion H; subst job'.
  unfold relevance_key, relevance_score, getitem.
  now rewrite lookup_setitem_same.
Qed.

(** ** Sets of strings *)

Lemma mem_In x l : mem x l = true <-> In x l.
Proof.
  induction l as [|y l IH]; simpl.
  - split; [discriminate|tauto].
  - rewrite orb_true_iff, IH, String.eqb_eq. intuition congruence.
Qed.

Lemma set_add_In x y s : In x (set_add y s) <-> In x s \/ x = y.
Proof.
  unfold set_add. destruct (mem y s) eqn:E.
  - apply mem_In in E. intuition congruence.
  - rewrite in_app_iff. simpl. intuition congruence.
Qed.

Lemma set_update_In x xs s : In x (set_update s xs) <-> In x s \/ In x xs.
Proof.
  unfold set_update. revert s. induction xs as [|y xs IH]; intros s; simpl.
  - tauto.
  - rewrite IH, set_add_In. intuition congruence.
Qed.

Lemma set_of_In x xs : In x (set_of xs) <-> In x xs.
Proof. unfold set_of. rewrite set_update_In. simpl. tauto. Qed.

Lemma In_map_VStr x l : In (VStr x) (map VStr l) <-> In x l.
Proof.
  rewrite in_map_iff. split.
  - intros [y [Hy Hin]]. now inversion Hy; subst.
  - intros H. now exists x.
Qed.

(** C3, as the code has it.  The fuzzy signal adds exactly 5 for every
    concept group of [synonyms] that has at least one synonym occurring in
    the search text, which is the title, one space and the description,
    lowered, however many of its synonyms occur, and records the concept
    key in [matched_skills], which holds the matched profile skills and
    the keys of the groups hit, nothing else.  With the profile skills
    python and docker and a job whose title, one space and description
    contain "Backend Python Developer using Docker and Kubernetes" the
    score is at least 15 and both skills are recorded.  (Title and
    description run together without the space are another text: see
    [concatenated_text].) *)
Theorem fuzzy_signal_once_per_concept p job t d :
  lookup "title" job = Some (VStr t) ->
  lookup "description" job = Some (VStr d) ->
  let text := lower ((t ++ " ") ++ d)%string in
  let hit := fun e : string * list string =>
               existsb (fun w => contains w text) (snd e) in
  exists job',
    score_job p job = Ok job'
    /\ relevance_score job'
       = 10 * Z.of_nat (List.length
                          (filter (fun s => contains s text) (set_of (skills p))))
         + 5 * Z.of_nat (List.length (filter hit synonyms))
         + 15 * Z.of_nat (List.length
                            (filter (fun title => contains (lower title) (lower t))
                                    (job_titles p)))
    /\ (forall x, In (VStr x) (matched_skills job') <->
                  (In x (skills p) /\ contains x text = true)
                  \/ exists e, In e synonyms /\ fst e = x /\ hit e = true)
    /\ (skills p = ["python"; "docker"] ->
        contains "Backend Python Developer using Docker and Kubernetes"
                 ((t ++ " ") ++ d)%string = true ->
        15 <= relevance_score job'
        /\ In (VStr "python") (matched_skills job')
        /\ In (VStr "docker") (matched_skills job')).
Proof.
  intros Ht Hd text hit.
  assert (Hhit : filter (fun e => first_hit (snd e) text) synonyms
                 = filter hit synonyms).
  { apply filter_ext. intros e. apply first_hit_existsb. }
  eexists. split; [apply (score_job_eq p job Ht Hd)|].
  fold text. rewrite Hhit.
  assert (Hm : forall x,
             In (VStr x)
                (matched_skills
                   (setitem "relevance_score"
                      (VInt (10 * Z.of_nat (List.length
                               (filter (fun s => contains s text) (set_of (skills p))))
                             + 5 * Z.of_nat (List.length (filter hit synonyms))
                             + 15 * Z.of_nat (List.length
                                 (filter (fun title => contains (lower title) (lower t))
                                         (job_titles p)))))
                      (setitem "matched_skills"
                         (VList (map VStr
                            (set_of (filter (fun s => contains s text) (set_of (skills p))
                                     ++ map fst (filter hit synonyms))))) job)))
             <-> (In x (skills p) /\ contains x text = true)
                 \/ exists e, In e synonyms /\ fst e = x /\ hit e = true).
  { intros x. unfold matched_skills.
    rewrite lookup_setitem_other by discriminate.
    rewrite lookup_setitem_same.
    rewrite In_map_VStr, set_of_In, in_app_iff, filter_In, set_of_In, in_map_iff.
    split.
    - intros [H|[e [He Hin]]]; [now left|].
      apply filter_In in Hin. right. exists e. tauto.
    - intros [H|[e [Hin [He Hh]]]]; [now left|].
      right. exists e. rewrite filter_In. tauto. }
  split; [|split; [exact Hm|]].
  - unfold relevance_score. now rewrite lookup_setitem_same.
  - intros Hs Htext.
    apply contains_lower in Htext. fold text in Htext.
    assert (Hpy : contains "python" text = true).
    { apply contains_trans with (2 := Htext). vm_compute. reflexivity. }
    assert (Hdo : contains "docker" text = true).
    { apply contains_trans with (2 := Htext). vm_compute. reflexivity. }
    split; [|split].
    + unfold relevance_score. rewrite lookup_setitem_same.
      rewrite Hs.
      change (set_of ["python"; "docker"]) with ["python"; "docker"].
      cbn [filter]. rewrite Hpy, Hdo. cbn [List.length].
      assert (0 <= Z.of_nat (List.length (filter hit synonyms)))
        by apply Nat2Z.is_nonneg.
      assert (0 <= Z.of_nat (List.length
                 (filter (fun title => contains (lower title) (lower t))
                         (job_titles p)))) by apply Nat2Z.is_nonneg.
      lia.
    + apply Hm. left. rewrite Hs. split; [simpl; auto|exact Hpy].
    + apply Hm. left. rewrite Hs. split; [simpl; auto|exact Hdo].
Qed.

(** ** Ranking *)

Lemma scored_keys p jobs scored :
  emap (score_job p) jobs = Ok scored ->
  Forall (fun a => relevance_key a = Ok (relevance_score a)) scored.
Proof.
  intros H. apply emap_Forall2 in H.
  induction H as [|job job' jobs scored Hj _ IH]; constructor; auto.
  eapply score_job_key; eauto.
Qed.

(** Once the scoring loop has gone through, [rank_jobs_by_relevance]
    returns the scored jobs, stably sorted by descending score. *)
Lemma rank_after_scoring p jobs scored :
  emap (score_job p) jobs = Ok scored ->
  exists out,
    rank_jobs_by_relevance jobs p = Ok out
    /\ Permutation out scored
    /\ StronglySorted (fun a b => relevance_score b <= relevance_score a) out
    /\ forall s, filter (fun j => relevance_score j =? s) out
                 = filter (fun j => relevance_score j =? s) scored.
Proof.
  intros H. unfold rank_jobs_by_relevance. rewrite H. cbn [ebind].
  apply sorted_reverse_spec. eapply scored_keys; eauto.
Qed.

Lemma rank_returns_only_after_scoring p jobs out :
  rank_jobs_by_relevance jobs p = Ok out ->
  exists scored, emap (score_job p) jobs = Ok scored.
Proof.
  unfold rank_jobs_by_relevance.
  destruct (emap (score_job p) jobs) as [scored|]; [|discriminate].
  intros _. now exists scored.
Qed.

Lemma scoring_defined p jobs :
  Forall (fun job => rankable job = true) jobs ->
  exists scored, emap (score_job p) jobs = Ok scored.
Proof.
  intros H. apply emap_defined.
  eapply Forall_impl; [|exact H]. intros job. apply score_job_defined.
Qed.

(** C1.  For every list of job records of the data model and every
    profile, [rank_jobs_by_relevance] returns the records, each with its
    computed relevance score, sorted by descending score; the sort is
    stable: for every score, the records that have it come out in their
    input order. *)
Theorem rank_sorted_descending_stable jobs p :
  Forall (fun job => rankable job = true) jobs ->
  exists scored out,
    emap (score_job p) jobs = Ok scored
    /\ rank_jobs_by_relevance jobs p = Ok out
    /\ Permutation out scored
    /\ StronglySorted (fun a b => relevance_score b <= relevance_score a) out
    /\ forall s, filter (fun j => relevance_score j =? s) out
                 = filter (fun j => relevance_score j =? s) scored.
Proof.
  intros H. destruct (scoring_defined p H) as [scored Hs].
  destruct (rank_after_scoring p jobs Hs) as (out & Hr & Hp & Hsort & Hst).
  exists scored, out. auto.
Qed.

(** C7.  Ranking never drops a record and never adds one: whenever
    [rank_jobs_by_relevance] returns, its result is as long as its input,
    and on job records of the data model it does return. *)
Theorem rank_preserves_length jobs p :
  (forall out, rank_jobs_by_relevance jobs p = Ok out ->
               List.length out = List.length jobs)
  /\ (Forall (fun job => rankable job = true) jobs ->
      exists out, rank_jobs_by_relevance jobs p = Ok out
                  /\ List.length out = List.length jobs).
Proof.
  assert (Hlen : forall out, rank_jobs_by_relevance jobs p = Ok out ->
                             List.length out = List.length jobs).
  { intros out Hr.
    destruct (rank_returns_only_after_scoring p jobs Hr) as [scored Hs].
    destruct (rank_after_scoring p jobs Hs) as (out' & Hr' & Hp & _).
    rewrite Hr in Hr'. inversion Hr'; subst out'.
    rewrite (Permutation_length Hp). eapply emap_length; eauto. }
  split; [exact Hlen|].
  intros H. destruct (scoring_defined p H) as [scored Hs].
  destruct (rank_after_scoring p jobs Hs) as (out & Hr & _).
  exists out. split; auto.
Qed.

(** ** Removing duplicates *)








End JobFacts.

(* ===================================================================== *)
(** * Facts about the profile, the job sources and the cache *)
(* ===================================================================== *)

Module JobEffects.
Import Py PyFacts JobRecommendationService.

(** Peels the successful steps off a computation known to return. *)
Ltac step H :=
  match type of H with
  | ebind ?c _ = Ok _ =>
      let E := fresh "E" in
      destruct c eqn:E; cbn [ebind] in H; [|discriminate H]
  end.

(** ** Profile extraction *)

Lemma efold_defined A S (body : S -> A -> exc S) xs :
  (forall s x, In x xs -> exists s', body s x = Ok s') ->
  forall s, exists s', efold body xs s = Ok s'.
Proof.
  induction xs as [|x xs IH]; intros Hb s; cbn [efold].
  - now exists s.
  - destruct (Hb s x (or_introl eq_refl)) as [s1 H1]. rewrite H1. cbn [ebind].
    apply IH. intros s0 y Hy. apply Hb. now right.
Qed.

(** A title adds to an empty set only if one of the groups matches it. *)
Lemma infer_from_title_matches inferred t :
  infer_from_title inferred t <> [] ->
  inferred <> []
  \/ exists g, In g title_groups /\ any_in (fst g) t = true.
Proof.
  unfold infer_from_title.
  generalize title_groups as groups. intros groups. revert inferred.
  induction groups as [|g groups IH]; intros inferred H; cbn [fold_left] in H.
  - now left.
  - destruct (any_in (fst g) t) eqn:Eg.
    + right. exists g. split; [now left|exact Eg].
    + destruct (IH _ H) as [Hne|[g' [Hin Hg']]]; [now left|].
      right. exists g'. split; [now right|exact Hg'].
Qed.

(** The title loop, started from any set: what is inferred beyond the
    start comes from a project whose title matches a group. *)
Lemma infer_loop_matches projects :
  forall start inferred,
    efold (fun inferred proj =>
             ebind (lowered_title proj) (fun t =>
             Ok (infer_from_title inferred t)))
          projects start = Ok inferred ->
    inferred <> [] ->
    start <> []
    \/ exists proj t g,
         In proj projects /\ lowered_title proj = Ok t
         /\ In g title_groups /\ any_in (fst g) t = true.
Proof.
  induction projects as [|proj projects IH]; intros start inferred H Hne;
    cbn [efold] in H.
  - inversion H; subst. now left.
  - destruct (lowered_title proj) as [t|] eqn:Et; cbn [ebind] in H;
      [|discriminate].
    destruct (IH _ _ H Hne) as [Hs|(proj' & t' & g & Hin & Ht' & Hg & Hm)].
    + destruct (infer_from_title_matches _ _ Hs) as [Hstart|[g [Hg Hm]]];
        [now left|].
      right. exists proj, t, g. repeat split; auto. now left.
    + right. exists proj', t', g. repeat split; auto. now right.
Qed.

(** What the returned profile carries as job titles. *)
Lemma extract_job_titles user_data p :
  extract_user_profile user_data = Ok p ->
  exists projects inferred,
    iter (get_or user_data "projects" (VList [])) = Ok projects
    /\ infer_titles projects = Ok inferred
    /\ job_titles p = match inferred with
                      | [] => fallback_titles
                      | _ => inferred
                      end.
Proof.
  unfold extract_user_profile. intros H.
  repeat step H. inversion H; subst p. cbn [job_titles].
  match goal with
  | Ep : iter (get_or _ "projects" _) = Ok ?ps,
    Ei : infer_titles ?ps = Ok ?inf |- _ => exists ps, inf; auto
  end.
Qed.

(** Candidate data of the stored shape is always accepted. *)
Lemma extend_strs acc l : extend acc (strs l) = Ok (acc ++ map VStr l).
Proof. reflexivity. Qed.

Lemma project_skills_defined (ps : list project) sk :
  exists sk',
    project_skills
      (map (fun p => VDict [ ("title", VStr (project_title p));
                             ("technologies", strs (technologies p)) ]) ps)
      sk = Ok sk'.
Proof.
  apply efold_defined. intros s x Hx.
  apply in_map_iff in Hx as [p [<- _]]. now eexists.
Qed.

Lemma bullet_loop_defined (items : list string) sk :
  exists sk',
    efold (fun sk item =>
             ebind (split_method item) (fun words =>
             Ok (sk ++ map VStr
                   (filter (fun w => (3 <? String.length w)%nat) words))))
          (map VStr items) sk = Ok sk'.
Proof.
  apply efold_defined. intros s x Hx.
  apply in_map_iff in Hx as [item [<- _]]. now eexists.
Qed.

Lemma experience_skills_defined (es : list (list string)) sk :
  exists sk',
    experience_skills
      (map (fun items => VDict [("items", strs items)]) es) sk = Ok sk'.
Proof.
  apply efold_defined. intros s x Hx.
  apply in_map_iff in Hx as [items [<- _]].
  cbn [get_method ebind]. change (get_or [("items", strs items)] "items" (VList []))
    with (strs items).
  unfold strs at 1. cbn [iter ebind]. apply bullet_loop_defined.
Qed.

Lemma infer_titles_defined (ps : list project) :
  exists inferred,
    infer_titles
      (map (fun p => VDict [ ("title", VStr (project_title p));
                             ("technologies", strs (technologies p)) ]) ps)
    = Ok inferred.
Proof.
  apply efold_defined. intros s x Hx.
  apply in_map_iff in Hx as [p [<- _]]. now eexists.
Qed.

Lemma extract_defined c :
  exists p, extract_user_profile (candidate_data c) = Ok p.
Proof.
  unfold extract_user_profile.
  change (get_or (candidate_data c) "languages" (VList []))
    with (strs (languages c)).
  change (get_or (candidate_data c) "tools" (VList []))
    with (strs (tools c)).
  change (get_or (candidate_data c) "coursework" (VList []))
    with (strs (coursework c)).
  change (get_or (candidate_data c) "projects" (VList []))
    with (VList (map (fun p => VDict [ ("title", VStr (project_title p));
                                       ("technologies", strs (technologies p)) ])
                     (projects c))).
  change (get_or (candidate_data c) "experience" (VList []))
    with (VList (map (fun items => VDict [("items", strs items)]) (experience c))).
  change (get_or (candidate_data c) "education" (VList []))
    with (VList (map (fun d => VDict [("degree", VStr d)]) (education c))).
  repeat (rewrite extend_strs; cbn [ebind iter]).
  match goal with
  | |- context [project_skills ?ps ?sk] =>
      destruct (project_skills_defined (projects c) sk) as [sk1 H1]
  end.
  rewrite H1. cbn [ebind].
  destruct (experience_skills_defined (experience c) sk1) as [sk2 H2].
  rewrite H2. cbn [ebind len].
  destruct (infer_titles_defined (projects c)) as [inferred H3].
  destruct (education c) as [|d ds]; cbn [map truthy first_item get_method ebind];
    rewrite H3; cbn [ebind]; now eexists.
Qed.

(** C9.  The job titles of every profile that [extract_user_profile]
    returns are not empty: they are the titles of the keyword groups that
    match a project title, or the fall-back pair Software Engineer, AI
    Engineer.  On candidate data of the stored shape the extraction does
    return. *)
Theorem job_titles_never_empty :
  (forall user_data p,
     extract_user_profile user_data = Ok p ->
     job_titles p <> []
     /\ (job_titles p = ["Software Engineer"; "AI Engineer"]
         \/ exists projects proj t g,
              iter (get_or user_data "projects" (VList [])) = Ok projects
              /\ In proj projects /\ lowered_title proj = Ok t
              /\ In g title_groups /\ any_in (fst g) t = true))
  /\ (forall c, exists p, extract_user_profile (candidate_data c) = Ok p).
Proof.
  split; [|exact extract_defined].
  intros user_data p H.
  destruct (extract_job_titles _ H) as (projects & inferred & Hp & Hi & Ht).
  destruct inferred as [|x inferred].
  - rewrite Ht. split; [discriminate|now left].
  - rewrite Ht. split; [discriminate|]. right.
    assert (Hne : x :: inferred <> []) by discriminate.
    destruct (@infer_loop_matches projects [] (x :: inferred) Hi Hne)
      as [Hs|(proj & t & g & H1 & H2 & H3 & H4)]; [now elim Hs|].
    exists projects, proj, t, g. auto.
Qed.

(** ** The job sources *)

(** A [try] whose handler returns the empty list never raises, and gives
    the empty list whenever its body raises. *)
Lemma guarded_returns (body : M (list dict)) w :
  exists jobs w', try_except body (fun _ => ret []) w = (Ok jobs, w').
Proof.
  unfold try_except, ret. destruct (body w) as [[jobs|e] w']; eauto.
Qed.

Lemma guarded_failure (body : M (list dict)) w e w' :
  body w = (Raise e, w') ->
  try_except body (fun _ => ret []) w = (Ok [], w').
Proof. unfold try_except, ret. now intros ->. Qed.

(** A request that brings no JSON body makes each [try] body raise. *)
Lemma request_fails w req (k : body -> M (list dict)) :
  no_json w ->
  (forall w', k BadBody w' = (Raise JSONDecodeError, w')) ->
  exists e w', bind (requests_get req) k w = (Raise e, w').
Proof.
  intros Hn Hk. unfold bind, requests_get.
  destruct (http w (List.length (sent w)) req) as [|[v|]] eqn:E.
  - eauto.
  - now elim (Hn req v).
  - rewrite Hk. eauto.
Qed.

Lemma jsearch_try_fails w q :
  no_json w -> exists e w', jsearch_try q w = (Raise e, w').
Proof. intros Hn. unfold jsearch_try. now apply request_fails. Qed.

Lemma remoteok_try_fails w q :
  no_json w -> exists e w', remoteok_try q w = (Raise e, w').
Proof. intros Hn. unfold remoteok_try. now apply request_fails. Qed.

Lemma adzuna_try_fails w q :
  no_json w -> exists e w', adzuna_try q w = (Raise e, w').
Proof. intros Hn. unfold adzuna_try. now apply request_fails. Qed.

(** C8.  No job source raises past its boundary: each search always
    returns a list; it returns the empty list whenever its guarded body
    raises, in particular when the transport fails or the body of the
    response is not JSON; and a source whose credentials are absent returns
    the empty list without sending any request. *)
Theorem sources_contain_failures w q limit :
  (* never an exception *)
  (exists jobs w', search_jobs_jsearch q limit w = (Ok jobs, w'))
  /\ (exists jobs w', search_jobs_remoteok q w = (Ok jobs, w'))
  /\ (exists jobs w', search_jobs_adzuna q w = (Ok jobs, w'))
  (* any failure inside gives the empty list *)
  /\ (forall e w', jsearch_try q w = (Raise e, w') ->
                   exists w'', search_jobs_jsearch q limit w = (Ok [], w''))
  /\ (forall e w', remoteok_try q w = (Raise e, w') ->
                   search_jobs_remoteok q w = (Ok [], w'))
  /\ (forall e w', adzuna_try q w = (Raise e, w') ->
                   exists w'', search_jobs_adzuna q w = (Ok [], w''))
  (* transport and parse failures are such failures *)
  /\ (no_json w ->
      (exists w', search_jobs_jsearch q limit w = (Ok [], w'))
      /\ (exists w', search_jobs_remoteok q w = (Ok [], w'))
      /\ (exists w', search_jobs_adzuna q w = (Ok [], w')))
  (* absent credentials: nothing is sent *)
  /\ (unset (RAPIDAPI_KEY w) = true ->
      search_jobs_jsearch q limit w = (Ok [], w))
  /\ (unset (ADZUNA_APP_ID w) || unset (ADZUNA_API_KEY w) = true ->
      search_jobs_adzuna q w = (Ok [], w)).
Proof.
  assert (Hj : forall e w', jsearch_try q w = (Raise e, w') ->
                 exists w'', search_jobs_jsearch q limit w = (Ok [], w'')).
  { intros e w' H. unfold search_jobs_jsearch.
    destruct (unset (RAPIDAPI_KEY w)); [now exists w|].
    exists w'. now apply guarded_failure with e. }
  assert (Hr : forall e w', remoteok_try q w = (Raise e, w') ->
                 search_jobs_remoteok q w = (Ok [], w')).
  { intros e w' H. unfold search_jobs_remoteok. now apply guarded_failure with e. }
  assert (Ha : forall e w', adzuna_try q w = (Raise e, w') ->
                 exists w'', search_jobs_adzuna q w = (Ok [], w'')).
  { intros e w' H. unfold search_jobs_adzuna.
    destruct (unset (ADZUNA_APP_ID w) || unset (ADZUNA_API_KEY w));
      [now exists w|].
    exists w'. now apply guarded_failure with e. }
  repeat split; auto.
  - unfold search_jobs_jsearch. destruct (unset (RAPIDAPI_KEY w)).
    + now exists [], w.
    + apply guarded_returns.
  - apply guarded_returns.
  - unfold search_jobs_adzuna.
    destruct (unset (ADZUNA_APP_ID w) || unset (ADZUNA_API_KEY w)).
    + now exists [], w.
    + apply guarded_returns.
  - destruct (jsearch_try_fails q H) as (e & w' & He). eauto.
  - destruct (remoteok_try_fails q H) as (e & w' & He). eauto.
  - destruct (adzuna_try_fails q H) as (e & w' & He). eauto.
  - intros H. unfold search_jobs_jsearch. now rewrite H.
  - intros H. unfold search_jobs_adzuna. now rewrite H.
Qed.

(** ** The cache *)

Section Cache.

Variable isoformat : Z -> string.
Variable fromisoformat : string -> option datetime.

(** Parsing the text of a naive instant gives the instant back. *)
Hypothesis fromisoformat_isoformat :
  forall t, fromisoformat (isoformat t) = Some (Naive t).

Lemma load_saved jobs h w w2 :
  jobs_cache w2 = jobs_cache (snd (save_jobs_cache isoformat jobs w)) ->
  load_jobs_cache fromisoformat h w2
  = (if span_hours h
     then Ok (if utcnow w2 - utcnow w >? h * hour
              then VList []
              else VList (map VDict jobs))
     else Raise OverflowError, w2).
Proof.
  intros Hf. unfold load_jobs_cache. rewrite Hf.
  cbn [save_jobs_cache snd with_jobs_cache jobs_cache].
  unfold lift. cbn [json_load ebind subscript getitem lookup].
  unfold getitem.
  change (lookup "timestamp"
            [("timestamp", VStr (isoformat (utcnow w)));
             ("jobs", VList (map VDict jobs))])
    with (Some (VStr (isoformat (utcnow w)))).
  change (lookup "jobs"
            [("timestamp", VStr (isoformat (utcnow w)));
             ("jobs", VList (map VDict jobs))])
    with (Some (VList (map VDict jobs))).
  cbn [ebind parse_timestamp]. rewrite fromisoformat_isoformat.
  cbn [ebind since]. unfold timedelta_hours.
  destruct (span_hours h); cbn [ebind]; auto.
  now destruct (utcnow w2 - utcnow w >? h * hour).
Qed.

Lemma load_missing h w :
  jobs_cache w = None ->
  load_jobs_cache fromisoformat h w = (Ok (VList []), w).
Proof. intros H. unfold load_jobs_cache. now rewrite H. Qed.

Lemma load_unreadable h w raw :
  jobs_cache w = Some (TextFile raw) ->
  load_jobs_cache fromisoformat h w = (Raise JSONDecodeError, w).
Proof. intros H. unfold load_jobs_cache. now rewrite H. Qed.

(** C6, as the code has it.  After [save_jobs_cache J], and for a
    [max_age_hours] that a [timedelta] can hold, a load whose elapsed time
    is at most [max_age_hours] returns [J] unchanged and a load after more
    than that returns the empty list (so a load with 24 hours, 25 hours
    after the save); a load without a cache file returns the empty list
    and does not raise, whatever [max_age_hours] is.  (A cache file that
    cannot be read, and a [max_age_hours] beyond what a [timedelta]
    holds, are another matter: see [load_unreadable] and [load_saved].) *)
Theorem cache_load_after_save jobs h w w2 :
  jobs_cache w2 = jobs_cache (snd (save_jobs_cache isoformat jobs w)) ->
  (span_hours h = true ->
   (utcnow w2 - utcnow w <= h * hour ->
    load_jobs_cache fromisoformat h w2 = (Ok (VList (map VDict jobs)), w2))
   /\ (utcnow w2 - utcnow w > h * hour ->
       load_jobs_cache fromisoformat h w2 = (Ok (VList []), w2)))
  /\ (h = 24 -> utcnow w2 = utcnow w + 25 * hour ->
      load_jobs_cache fromisoformat h w2 = (Ok (VList []), w2))
  /\ (forall w0, jobs_cache w0 = None ->
                 load_jobs_cache fromisoformat h w0 = (Ok (VList []), w0)).
Proof.
  intros Hf. pose proof (@load_saved jobs h w w2 Hf) as Hl.
  split; [|split].
  - intros Hs. rewrite Hs in Hl. split.
    + intros Hle. rewrite Hl.
      destruct (Z.gtb_spec (utcnow w2 - utcnow w) (h * hour));
        [lia|reflexivity].
    + intros Hgt. rewrite Hl.
      destruct (Z.gtb_spec (utcnow w2 - utcnow w) (h * hour));
        [reflexivity|lia].
  - intros -> Ht. rewrite Hl.
    change (span_hours 24) with true. cbv iota.
    destruct (Z.gtb_spec (utcnow w2 - utcnow w) (24 * hour)); [reflexivity|].
    unfold hour in *. lia.
  - intros w0. apply load_missing.
Qed.

(** ** The main entry point *)

Lemma st_is_not_defined locals :
  mem "st" locals = false -> name_lookup locals "st" = Raise (NameError "st").
Proof. intros H. unfold name_lookup. rewrite H. reflexivity. Qed.

(** Where [get_recommended_jobs] ends once the stages before the debug
    line have gone through. *)
Lemma recommended_jobs_stages user_data max_results w p all_jobs w1 unique ranked :
  extract_user_profile user_data = Ok p ->
  fetch_jobs (firstn 3 (job_titles p)) w = (Ok all_jobs, w1) ->
  dedupe all_jobs = Ok unique ->
  rank_jobs_by_relevance unique p = Ok ranked ->
  get_recommended_jobs isoformat user_data max_results w
  = (Raise (NameError "st"),
     snd (save_jobs_cache isoformat (slice_to ranked max_results) w1)).
Proof.
  intros Hp Hf Hd Hr. unfold get_recommended_jobs.
  unfold bind at 1. unfold lift at 1. rewrite Hp.
  unfold bind at 1. rewrite Hf.
  unfold bind at 1. unfold lift at 1. rewrite Hd.
  unfold bind at 1. unfold lift at 1. rewrite Hr.
  reflexivity.
Qed.

(** C10.  [get_recommended_jobs] never returns normally: whatever the
    input and the world, its outcome is not a list of jobs; and whenever
    profile extraction, fetching, removal of duplicates and ranking go
    through, the cache is written and evaluating the name [st], which the
    module neither imports nor defines, raises [NameError]. *)
Theorem get_recommended_jobs_never_returns user_data max_results w :
  (forall jobs w', get_recommended_jobs isoformat user_data max_results w
                   <> (Ok jobs, w'))
  /\ (forall p all_jobs w1 unique ranked,
        extract_user_profile user_data = Ok p ->
        fetch_jobs (firstn 3 (job_titles p)) w = (Ok all_jobs, w1) ->
        dedupe all_jobs = Ok unique ->
        rank_jobs_by_relevance unique p = Ok ranked ->
        get_recommended_jobs isoformat user_data max_results w
        = (Raise (NameError "st"),
           snd (save_jobs_cache isoformat (slice_to ranked max_results) w1))
        /\ jobs_cache (snd (save_jobs_cache isoformat
                              (slice_to ranked max_results) w1))
           = Some (JsonFile
                     (VDict [ ("timestamp", VStr (isoformat (utcnow w1)));
                              ("jobs", VList (map VDict
                                                (slice_to ranked max_results))) ]))).
Proof.
  split.
  - intros jobs w'. unfold get_recommended_jobs.
    unfold bind at 1. unfold lift at 1.
    destruct (extract_user_profile user_data) as [p|]; [|discriminate].
    unfold bind at 1.
    destruct (fetch_jobs (firstn 3 (job_titles p)) w) as [[all_jobs|] w1];
      [|discriminate].
    unfold bind at 1. unfold lift at 1.
    destruct (dedupe all_jobs) as [unique|]; [|discriminate].
    unfold bind at 1. unfold lift at 1.
    destruct (rank_jobs_by_relevance unique p) as [ranked|]; [|discriminate].
    discriminate.
  - intros p all_jobs w1 unique ranked Hp Hf Hd Hr. split.
    + now apply recommended_jobs_stages with p all_jobs unique.
    + reflexivity.
Qed.

End Cache.

End JobEffects.

(* ===================================================================== *)
(** * Facts about the agentic answer pipeline *)
(* ===================================================================== *)

Module RagFacts.
Import Py AgenticRag.

(** ** Stripping and lowering do not change where a word occurs *)

Lemma is_space_lower c : is_space (lower_ascii c) = is_space c.
Proof. destruct c as [[] [] [] [] [] [] [] []]; reflexivity. Qed.

Lemma is_empty_lower s : is_empty (lower s) = is_empty s.
Proof. now destruct s. Qed.

Lemma lower_lstrip s : lower (lstrip s) = lstrip (lower s).
Proof.
  induction s as [|c s IH]; cbn [lstrip lower]; auto.
  rewrite is_space_lower. destruct (is_space c); auto.
Qed.

Lemma lower_rstrip s : lower (rstrip s) = rstrip (lower s).
Proof.
  induction s as [|c s IH]; cbn [rstrip lower]; auto.
  rewrite is_space_lower, <- IH, is_empty_lower.
  destruct (is_space c && is_empty (rstrip s)); auto.
Qed.

Lemma lower_strip s : lower (strip s) = strip (lower s).
Proof. unfold strip. now rewrite lower_rstrip, lower_lstrip. Qed.

Lemma space_differs a c :
  is_space a = false -> is_space c = true -> Ascii.eqb a c = false.
Proof.
  intros Ha Hc. destruct (Ascii.eqb_spec a c); auto. congruence.
Qed.

Lemma starts_with_rstrip n : forall s,
  no_space n = true -> starts_with n (rstrip s) = starts_with n s.
Proof.
  induction n as [|a n IHn]; intros s Hn.
  - destruct (rstrip s), s; reflexivity.
  - cbn [no_space] in Hn. apply andb_prop in Hn as [Ha Hn].
    apply negb_true_iff in Ha.
    destruct s as [|c s]; auto. cbn [rstrip].
    destruct (is_space c && is_empty (rstrip s)) eqn:E; cbn [starts_with].
    + apply andb_prop in E as [Hc _]. now rewrite (@space_differs a c Ha Hc).
    + now rewrite IHn.
Qed.

Lemma contains_rstrip a n s :
  no_space (String a n) = true ->
  contains (String a n) (rstrip s) = contains (String a n) s.
Proof.
  intros Hn. induction s as [|c s IH]; auto.
  pose proof Hn as Hn'. cbn [no_space] in Hn'.
  apply andb_prop in Hn' as [Ha Hn']. apply negb_true_iff in Ha.
  cbn [rstrip contains].
  destruct (is_space c && is_empty (rstrip s)) eqn:E.
  - apply andb_prop in E as [Hc He].
    rewrite <- IH. destruct (rstrip s); [|discriminate].
    cbn. now rewrite (@space_differs a c Ha Hc).
  - cbn [contains]. rewrite IH. f_equal.
    cbn [starts_with]. now rewrite starts_with_rstrip.
Qed.

Lemma contains_lstrip a n s :
  is_space a = false ->
  contains (String a n) (lstrip s) = contains (String a n) s.
Proof.
  intros Ha. induction s as [|c s IH]; auto.
  cbn [lstrip]. destruct (is_space c) eqn:Hc; auto.
  rewrite IH. cbn [contains starts_with]. now rewrite (@space_differs a c Ha Hc).
Qed.

Lemma contains_strip a n s :
  no_space (String a n) = true ->
  contains (String a n) (strip s) = contains (String a n) s.
Proof.
  intros Hn. unfold strip. rewrite contains_rstrip by exact Hn.
  apply contains_lstrip. cbn [no_space] in Hn.
  apply andb_prop in Hn as [Ha _]. now apply negb_true_iff in Ha.
Qed.

(** ** Router *)

Lemma run_route_query q w router w1 content w2 :
  get_random_llm default_model 7 w = (Ok router, w1) ->
  invoke router (router_prompt q) w1 = (Ok content, w2) ->
  route_query q w = (Ok (route_decision content), w2).
Proof.
  intros Hl Hi. unfold route_query, bind. now rewrite Hl, Hi.
Qed.

(** C4.  The routing decision is computed by substring checks on the
    lowered response of the router: both if project and resume occur,
    else project if project occurs, else resume; so it is always one of
    resume, project, both. *)
Theorem route_decision_by_keywords content :
  let answer := lower content in
  route_decision content
  = (if contains "project" answer && contains "resume" answer then "both"
     else if contains "project" answer then "project"
     else "resume")
  /\ In (route_decision content) ["resume"; "project"; "both"]
  /\ forall q w router w1 w2,
       get_random_llm default_model 7 w = (Ok router, w1) ->
       invoke router (router_prompt q) w1 = (Ok content, w2) ->
       route_query q w = (Ok (route_decision content), w2).
Proof.
  intros answer.
  assert (Heq : route_decision content
                = (if contains "project" answer && contains "resume" answer
                   then "both"
                   else if contains "project" answer then "project"
                   else "resume")).
  { unfold route_decision, answer. rewrite lower_strip.
    now rewrite !contains_strip by reflexivity. }
  split; [exact Heq|]. split.
  - rewrite Heq.
    destruct (contains "project" answer), (contains "resume" answer);
      cbn; auto.
  - intros q w router w1 w2. apply run_route_query.
Qed.

(** ** Grader *)

Lemma append_assoc (a b c : string) :
  ((a ++ b) ++ c)%string = (a ++ (b ++ c))%string.
Proof. induction a as [|x a IH]; cbn; congruence. Qed.

Lemma after_first_open_split s rest :
  after_first_open s = Some rest ->
  exists a, s = (a ++ String "{"%char rest)%string.
Proof.
  revert rest. induction s as [|c s IH]; intros rest H; cbn in H;
    [discriminate|].
  destruct (Ascii.eqb_spec c "{"%char) as [->|Hne].
  - inversion H; subst. now exists EmptyString.
  - destruct (IH _ H) as [a ->]. now exists (String c a).
Qed.

Lemma up_to_last_close_split s r :
  up_to_last_close s = Some r ->
  exists b c, s = (b ++ String "}"%char c)%string.
Proof.
  revert r. induction s as [|x s IH]; intros r H; cbn in H; [discriminate|].
  destruct (up_to_last_close s) as [r'|] eqn:E.
  - destruct (IH _ eq_refl) as (b & c & ->). now exists (String x b), c.
  - destruct (Ascii.eqb_spec x "}"%char) as [->|Hne]; [|discriminate].
    now exists EmptyString, s.
Qed.

Lemma up_to_last_close_found b c :
  up_to_last_close (b ++ String "}"%char c) <> None.
Proof.
  induction b as [|x b IH]; cbn.
  - now destruct (up_to_last_close c).
  - destruct (up_to_last_close (b ++ String "}"%char c)); [discriminate|].
    now elim IH.
Qed.

Lemma after_first_open_found a rest :
  exists pre, after_first_open (a ++ String "{"%char rest)
              = Some (pre ++ rest)%string.
Proof.
  induction a as [|x a [pre IH]]; cbn.
  - now exists EmptyString.
  - destruct (Ascii.eqb x "{"%char).
    + exists (a ++ String "{"%char EmptyString)%string.
      now rewrite append_assoc.
    + now exists pre.
Qed.

(** [brace_block] finds nothing exactly when the text has no opening brace
    with a closing brace somewhere after it. *)
Lemma brace_block_none_iff text :
  brace_block text = None
  <-> forall a b c, text <> (a ++ String "{"%char (b ++ String "}"%char c))%string.
Proof.
  unfold brace_block. split.
  - intros H a b c ->.
    destruct (after_first_open_found a (b ++ String "}"%char c)) as [pre Hp].
    rewrite Hp in H.
    pose proof (@up_to_last_close_found (pre ++ b) c) as Hf.
    rewrite append_assoc in Hf.
    destruct (up_to_last_close (pre ++ b ++ String "}"%char c));
      [discriminate|now elim Hf].
  - intros H. destruct (after_first_open text) as [rest|] eqn:Ea; auto.
    destruct (up_to_last_close rest) as [r|] eqn:Ec; auto.
    apply after_first_open_split in Ea as [a ->].
    apply up_to_last_close_split in Ec as (b & c & ->).
    now elim (H a b c).
Qed.

Section Library.

Variable json_loads : string -> option value.
Variable repr : value -> string.

Lemma grade_text_unparsable text :
  brace_block text = None ->
  grade_text json_loads text = (false, VStr "Could not parse grader response.").
Proof. intros H. unfold grade_text. now rewrite H. Qed.

Lemma run_grade_answer q answer w grader w1 text w2 :
  get_random_llm default_model 0 w = (Ok grader, w1) ->
  invoke grader (grader_prompt q answer) w1 = (Ok text, w2) ->
  grade_answer json_loads q answer w = (Ok (grade_text json_loads text), w2).
Proof.
  intros Hl Hi. unfold grade_answer, bind. now rewrite Hl, Hi.
Qed.

(** The pipeline after a failed grading: one more call, nothing else. *)
Lemma run_pipeline_failed q w source w1 answer w2 feedback w3 :
  route_query q w = (Ok source, w1) ->
  retrieve_answer q source w1 = (Ok answer, w2) ->
  grade_answer json_loads q answer w2 = (Ok (false, feedback), w3) ->
  agentic_rag_pipeline json_loads repr q w
  = bind (get_random_llm default_model 7)
         (fun llm => invoke llm (correction_prompt repr feedback)) w3.
Proof.
  intros Hr Ha Hg. unfold agentic_rag_pipeline.
  unfold bind at 1. rewrite Hr.
  unfold bind at 1. rewrite Ha.
  unfold bind at 1. rewrite Hg. reflexivity.
Qed.

Lemma invoke_logs c p w content w' :
  invoke c p w = (Ok content, w') ->
  calls w' = calls w ++ [{| by_client := c; prompt := p |}].
Proof.
  unfold invoke.
  destruct (llm w _ _); intros H; inversion H; reflexivity.
Qed.

Lemma get_random_llm_calls m t w c w' :
  get_random_llm m t w = (Ok c, w') -> calls w' = calls w.
Proof.
  unfold get_random_llm, bind, random_choice, ret.
  destruct (present (groq_keys w)); intros H; inversion H; reflexivity.
Qed.

(** C5.  When the response of the grader has no brace-delimited block,
    grading returns (false, "Could not parse grader response.") and does
    not raise; the pipeline then makes exactly one corrective call, whose
    prompt carries that feedback, and returns the content of its response
    without grading it. *)
Theorem unparsable_grade_one_correction q text :
  brace_block text = None ->
  grade_text json_loads text = (false, VStr "Could not parse grader response.")
  /\ forall w source w1 answer w2 grader w3 w4,
       route_query q w = (Ok source, w1) ->
       retrieve_answer q source w1 = (Ok answer, w2) ->
       get_random_llm default_model 0 w2 = (Ok grader, w3) ->
       invoke grader (grader_prompt q answer) w3 = (Ok text, w4) ->
       grade_answer json_loads q answer w2
       = (Ok (false, VStr "Could not parse grader response."), w4)
       /\ agentic_rag_pipeline json_loads repr q w
          = bind (get_random_llm default_model 7)
                 (fun llm =>
                    invoke llm
                      ("Your last answer was graded as insufficient because: "
                       ++ "Could not parse grader response."
                       ++ ". Please correct it.")%string) w4
       /\ forall corrector w5 corrected w6,
            get_random_llm default_model 7 w4 = (Ok corrector, w5) ->
            invoke corrector
              ("Your last answer was graded as insufficient because: "
               ++ "Could not parse grader response."
               ++ ". Please correct it.")%string w5 = (Ok corrected, w6) ->
            agentic_rag_pipeline json_loads repr q w = (Ok corrected, w6)
            /\ calls w6
               = calls w4
                 ++ [{| by_client := corrector;
                        prompt := ("Your last answer was graded as insufficient because: "
                                   ++ "Could not parse grader response."
                                   ++ ". Please correct it.")%string |}].
Proof.
  intros Hb. pose proof (@grade_text_unparsable text Hb) as Hg.
  split; [exact Hg|].
  intros w source w1 answer w2 grader w3 w4 Hr Ha Hl Hi.
  pose proof (@run_grade_answer q answer w2 grader w3 text w4 Hl Hi) as Hga.
  rewrite Hg in Hga.
  pose proof (@run_pipeline_failed q w source w1 answer w2 _ w4 Hr Ha Hga) as Hp.
  split; [exact Hga|]. split; [exact Hp|].
  intros corrector w5 corrected w6 Hc Hv. split.
  - rewrite Hp. unfold bind. now rewrite Hc.
  - apply invoke_logs in Hv. apply get_random_llm_calls in Hc. congruence.
Qed.

End Library.

End RagFacts.

(* ===================================================================== *)
(** * The statements on sample inputs *)
(* ===================================================================== *)

Module Samples.
Import Py JobRecommendationService.

Lemma decimal_roundtrip t :
  decimal_fromisoformat (decimal_isoformat t) = Some (Naive t).
Proof.
  unfold decimal_fromisoformat, decimal_isoformat.
  rewrite DecimalString.NilEmpty.isi. cbn. now rewrite DecimalZ.of_to.
Qed.

(** Ranking the four sample jobs: the two adverts that mention Python come
    first, the two without any match keep their input order. *)
Example rank_sample_titles :
  rank_jobs_by_relevance sample_jobs sample_profile
  = Ok (map (fun job => snd job)
          [ (30, setitem "relevance_score" (VInt 30)
                   (setitem "matched_skills" (strs ["python"; "docker"])
                      (posting "Backend Python Developer" "Acme"
                               "using Docker and Kubernetes")));
            (15, setitem "relevance_score" (VInt 15)
                   (setitem "matched_skills" (strs ["python"])
                      (posting "backend python developer" "ACME"
                               "a second advert")));
            (0, setitem "relevance_score" (VInt 0)
                  (setitem "matched_skills" (strs [])
                     (posting "Accountant" "Ledger Ltd"
                              "Bookkeeping and payroll")));
            (0, setitem "relevance_score" (VInt 0)
                  (setitem "matched_skills" (strs [])
                     (posting "Gardener" "Green Co" "Lawns and hedges"))) ]).
Proof. vm_compute. reflexivity. Qed.

(** The second advert of Acme has the key of the first one and is
    dropped. *)
Example dedupe_sample :
  dedupe sample_jobs
  = Ok [ posting "Accountant" "Ledger Ltd" "Bookkeeping and payroll";
         posting "Backend Python Developer" "Acme" "using Docker and Kubernetes";
         posting "Gardener" "Green Co" "Lawns and hedges" ].
Proof. vm_compute. reflexivity. Qed.

(** A job without a description stops the ranking at its debug line. *)
Example rank_needs_description :
  rank_jobs_by_relevance [[("title", VStr "Gardener")]] sample_profile
  = Raise TypeError.
Proof. vm_compute. reflexivity. Qed.

Lemma rank_sorted_descending_stable_witness :
  Forall (fun job => rankable job = true) sample_jobs
  /\ exists scored out,
       emap (score_job sample_profile) sample_jobs = Ok scored
       /\ rank_jobs_by_relevance sample_jobs sample_profile = Ok out
       /\ Permutation out scored
       /\ StronglySorted (fun a b => relevance_score b <= relevance_score a) out
       /\ forall s, filter (fun j => relevance_score j =? s) out
                    = filter (fun j => relevance_score j =? s) scored.
Proof.
  split.
  - repeat constructor.
  - apply (@JobFacts.rank_sorted_descending_stable sample_jobs sample_profile).
    repeat constructor.
Defined.


Lemma fuzzy_signal_once_per_concept_witness :
  let job := posting "Backend Python Developer using Docker and Kubernetes"
                     "Acme" "" in
  lookup "title" job
  = Some (VStr "Backend Python Developer using Docker and Kubernetes")
  /\ lookup "description" job = Some (VStr "")
  /\ exists job',
       score_job sample_profile job = Ok job'
       /\ 15 <= relevance_score job'
       /\ In (VStr "python") (matched_skills job')
       /\ In (VStr "docker") (matched_skills job').
Proof.
  intros job. split; [reflexivity|]. split; [reflexivity|].
  destruct (@JobFacts.fuzzy_signal_once_per_concept sample_profile job
              "Backend Python Developer using Docker and Kubernetes" ""
              eq_refl eq_refl)
    as (job' & Hrun & _ & _ & Hscenario).
  exists job'. split; [exact Hrun|].
  apply Hscenario; reflexivity.
Defined.

(** The claim about the concatenation of title and description fails both
    ways.  With the title sq and the description l server, the synonym
    sql of the database group occurs in the lowered concatenation, yet
    nothing is added and nothing recorded; with the title Deep and the
    description Learning, no synonym of any group occurs in the lowered
    concatenation, yet 5 is added and machine learning recorded. *)
Lemma concatenation_is_not_searched :
  let p := {| skills := []; experience_years := 0; education_level := VStr "";
              preferred_locations := ["Remote"; "India"]; job_titles := [] |} in
  let hit := fun (text : string) (e : string * list string) =>
               existsb (fun w => contains w text) (snd e) in
  (In ("database", ["postgres"; "mysql"; "mongodb"; "sql"]) synonyms
   /\ contains "sql" (concatenated_text "sq" "l server") = true
   /\ exists job',
        score_job p (posting "sq" "Acme" "l server") = Ok job'
        /\ relevance_score job' = 0
        /\ matched_skills job' = []
        /\ relevance_score job'
           <> 5 * Z.of_nat (List.length
                              (filter (hit (concatenated_text "sq" "l server"))
                                      synonyms)))
  /\ (filter (hit (concatenated_text "Deep" "Learning")) synonyms = []
      /\ exists job',
           score_job p (posting "Deep" "Acme" "Learning") = Ok job'
           /\ relevance_score job' = 5
           /\ matched_skills job' = [VStr "machine learning"]).
Proof.
  intros p hit. split.
  - split; [cbn; tauto|]. split; [vm_compute; reflexivity|].
    eexists. split; [vm_compute; reflexivity|].
    split; [reflexivity|]. split; [reflexivity|].
    vm_compute. discriminate.
  - split; [vm_compute; reflexivity|].
    eexists. split; [vm_compute; reflexivity|].
    split; reflexivity.
Qed.

Lemma rank_preserves_length_witness :
  Forall (fun job => rankable job = true) sample_jobs
  /\ exists out,
       rank_jobs_by_relevance sample_jobs sample_profile = Ok out
       /\ List.length out = 4%nat.
Proof.
  split.
  - repeat constructor.
  - apply (proj2 (@JobFacts.rank_preserves_length sample_jobs sample_profile)).
    repeat constructor.
Defined.

Lemma job_titles_never_empty_witness :
  exists p,
    extract_user_profile (candidate_data sample_candidate) = Ok p
    /\ job_titles p <> [].
Proof.
  destruct (proj2 JobEffects.job_titles_never_empty sample_candidate) as [p Hp].
  exists p. split; [exact Hp|].
  exact (proj1 (proj1 JobEffects.job_titles_never_empty _ p Hp)).
Defined.

Lemma sources_contain_failures_witness :
  no_json garbled
  /\ unset (RAPIDAPI_KEY offline) = true
  /\ unset (ADZUNA_APP_ID offline) || unset (ADZUNA_API_KEY offline) = true
  /\ (exists w', search_jobs_jsearch "AI Engineer" 15 garbled = (Ok [], w'))
  /\ (exists w', search_jobs_remoteok "AI Engineer" garbled = (Ok [], w'))
  /\ (exists w', search_jobs_adzuna "AI Engineer" garbled = (Ok [], w'))
  /\ search_jobs_jsearch "AI Engineer" 15 offline = (Ok [], offline)
  /\ search_jobs_adzuna "AI Engineer" offline = (Ok [], offline).
Proof.
  assert (Hn : no_json garbled) by (intros req v; discriminate).
  pose proof (JobEffects.sources_contain_failures garbled "AI Engineer" 15)
    as (_ & _ & _ & _ & _ & _ & Hfail & _).
  pose proof (JobEffects.sources_contain_failures offline "AI Engineer" 15)
    as (_ & _ & _ & _ & _ & _ & _ & Hj & Ha).
  destruct (Hfail Hn) as (H1 & H2 & H3).
  repeat split; auto.
Defined.

Lemma cache_load_after_save_witness :
  let saved := snd (save_jobs_cache decimal_isoformat sample_jobs offline) in
  (forall t, decimal_fromisoformat (decimal_isoformat t) = Some (Naive t))
  /\ span_hours 24 = true
  /\ load_jobs_cache decimal_fromisoformat 24 (later saved 3 (jobs_cache saved))
     = (Ok (VList (map VDict sample_jobs)), later saved 3 (jobs_cache saved))
  /\ load_jobs_cache decimal_fromisoformat 24 (later saved 25 (jobs_cache saved))
     = (Ok (VList []), later saved 25 (jobs_cache saved)).
Proof.
  intros saved. split; [exact decimal_roundtrip|].
  split; [reflexivity|]. split.
  - apply (proj1 (proj1 (@JobEffects.cache_load_after_save
                           decimal_isoformat decimal_fromisoformat
                           decimal_roundtrip
                           sample_jobs 24 offline
                           (later saved 3 (jobs_cache saved)) eq_refl)
                        eq_refl)).
    vm_compute. discriminate.
  - apply (proj1 (proj2 (@JobEffects.cache_load_after_save
                    decimal_isoformat decimal_fromisoformat decimal_roundtrip
                    sample_jobs 24 offline (later saved 25 (jobs_cache saved))
                    eq_refl))); reflexivity.
Defined.

(** The claim fails in two places.  Loading the cut-short file raises
    instead of returning the empty list; and three hours after a save, a
    load with 24000000000 hours, more than a [timedelta] holds, raises
    instead of returning the saved jobs. *)
Lemma cache_load_can_raise :
  let saved := snd (save_jobs_cache decimal_isoformat sample_jobs offline) in
  jobs_cache corrupted = Some (TextFile "{ timestamp: 2026-11-04T09:5")
  /\ load_jobs_cache decimal_fromisoformat 24 corrupted
     = (Raise JSONDecodeError, corrupted)
  /\ fst (load_jobs_cache decimal_fromisoformat 24 corrupted) <> Ok (VList [])
  /\ 3 * hour <= 24000000000 * hour
  /\ load_jobs_cache decimal_fromisoformat 24000000000
       (later saved 3 (jobs_cache saved))
     = (Raise OverflowError, later saved 3 (jobs_cache saved))
  /\ fst (load_jobs_cache decimal_fromisoformat 24000000000
            (later saved 3 (jobs_cache saved)))
     <> Ok (VList (map VDict sample_jobs)).
Proof.
  intros saved.
  split; [reflexivity|]. split; [reflexivity|]. split; [discriminate|].
  split; [vm_compute; discriminate|].
  assert (H : load_jobs_cache decimal_fromisoformat 24000000000
                (later saved 3 (jobs_cache saved))
              = (Raise OverflowError, later saved 3 (jobs_cache saved))).
  { rewrite (@JobEffects.load_saved decimal_isoformat decimal_fromisoformat
               decimal_roundtrip sample_jobs 24000000000 offline
               (later saved 3 (jobs_cache saved)) eq_refl).
    reflexivity. }
  split; [exact H|]. rewrite H. discriminate.
Qed.

Lemma get_recommended_jobs_never_returns_witness :
  let user_data := candidate_data sample_candidate in
  exists p all_jobs w1 unique ranked,
    extract_user_profile user_data = Ok p
    /\ fetch_jobs (firstn 3 (job_titles p)) garbled = (Ok all_jobs, w1)
    /\ dedupe all_jobs = Ok unique
    /\ rank_jobs_by_relevance unique p = Ok ranked
    /\ get_recommended_jobs decimal_isoformat user_data 15 garbled
       = (Raise (NameError "st"),
          snd (save_jobs_cache decimal_isoformat (slice_to ranked 15) w1)).
Proof.
  intros user_data.
  destruct (extract_user_profile user_data) as [p|] eqn:Hp;
    [|vm_compute in Hp; discriminate].
  destruct (fetch_jobs (firstn 3 (job_titles p)) garbled) as [[all_jobs|e] w1] eqn:Hf.
  2: { exfalso. vm_compute in Hp. inversion Hp; subst p.
       vm_compute in Hf. discriminate. }
  destruct (dedupe all_jobs) as [unique|] eqn:Hd.
  2: { exfalso. vm_compute in Hp. inversion Hp; subst p.
       vm_compute in Hf. inversion Hf; subst all_jobs.
       vm_compute in Hd. discriminate. }
  destruct (rank_jobs_by_relevance unique p) as [ranked|] eqn:Hr.
  2: { exfalso. vm_compute in Hp. inversion Hp; subst p.
       vm_compute in Hf. inversion Hf; subst all_jobs.
       vm_compute in Hd. inversion Hd; subst unique.
       vm_compute in Hr. discriminate. }
  exists p, all_jobs, w1, unique, ranked.
  repeat split; auto.
  exact (proj1 (proj2 (@JobEffects.get_recommended_jobs_never_returns
                         decimal_isoformat user_data 15 garbled)
                      p all_jobs w1 unique ranked Hp Hf Hd Hr)).
Defined.

End Samples.

Module RagSamples.
Import Py AgenticRag.

Example route_sample :
  route_decision "I would use the RESUME, and the project notes too." = "both"
  /\ route_decision "Project." = "project"
  /\ route_decision "neither of them" = "resume".
Proof. repeat split; vm_compute; reflexivity. Qed.

Example brace_block_sample :
  brace_block "note {a} and {b} end" = Some "{a} and {b}"
  /\ brace_block "} first, { later" = None.
Proof. split; vm_compute; reflexivity. Qed.

Lemma route_decision_by_keywords_witness :
  let w1 := snd (get_random_llm default_model 7 sample_world) in
  let router := {| api_key := "gsk-1"; model := default_model;
                   temperature := 7 |} in
  let w2 := snd (invoke router (router_prompt "How long did I work?") w1) in
  get_random_llm default_model 7 sample_world = (Ok router, w1)
  /\ invoke router (router_prompt "How long did I work?") w1 = (Ok " Resume ", w2)
  /\ route_query "How long did I work?" sample_world = (Ok "resume", w2).
Proof.
  intros w1 router w2.
  assert (H1 : get_random_llm default_model 7 sample_world = (Ok router, w1))
    by reflexivity.
  assert (H2 : invoke router (router_prompt "How long did I work?") w1
               = (Ok " Resume ", w2)) by reflexivity.
  split; [exact H1|]. split; [exact H2|].
  exact (proj2 (proj2 (RagFacts.route_decision_by_keywords " Resume "))
               "How long did I work?" sample_world router w1 w2 H1 H2).
Defined.

Lemma unparsable_grade_one_correction_witness :
  let json_loads := fun _ : string => @None value in
  let repr := fun _ : value => EmptyString in
  let q := "How long did I work?" in
  brace_block "The answer looks incomplete to me." = None
  /\ fst (agentic_rag_pipeline json_loads repr q sample_world)
     = Ok "Three years of backend work, two of them in Python."
  /\ List.length (calls (snd (agentic_rag_pipeline json_loads repr q sample_world)))
     = 4%nat.
Proof.
  intros json_loads repr q.
  assert (Hb : brace_block "The answer looks incomplete to me." = None)
    by reflexivity.
  split; [exact Hb|].
  destruct (@RagFacts.unparsable_grade_one_correction json_loads repr q
              "The answer looks incomplete to me." Hb) as [_ H].
  set (w1 := snd (route_query q sample_world)).
  set (answer := "Three years of backend work.").
  set (w2 := snd (retrieve_answer q "resume" w1)).
  set (grader := {| api_key := "gsk-1"; model := default_model;
                    temperature := 0 |}).
  set (w3 := snd (get_random_llm default_model 0 w2)).
  set (w4 := snd (invoke grader (grader_prompt q answer) w3)).
  destruct (H sample_world "resume" w1 answer w2 grader w3 w4
              eq_refl eq_refl eq_refl eq_refl) as (_ & _ & Hc).
  set (corrector := {| api_key := "gsk-1"; model := default_model;
                       temperature := 7 |}).
  set (w5 := snd (get_random_llm default_model 7 w4)).
  set (w6 := snd (invoke corrector
                    ("Your last answer was graded as insufficient because: "
                     ++ "Could not parse grader response."
                     ++ ". Please correct it.")%string w5)).
  destruct (Hc corrector w5
              "Three years of backend work, two of them in Python." w6
              eq_refl eq_refl) as [Hp Hcalls].
  rewrite Hp. split; [reflexivity|].
  cbn [snd]. rewrite Hcalls. reflexivity.
Defined.

End RagSamples.

(* ===================================================================== *)
(** * More about profile extraction *)
(* ===================================================================== *)

Module ProfileFacts.
Import Py PyFacts JobRecommendationService.

Local Arguments Z.of_nat : simpl never.

(** ** Sets and lowering *)

Lemma lower_ascii_idem c : lower_ascii (lower_ascii c) = lower_ascii c.
Proof. destruct c as [[] [] [] [] [] [] [] []]; reflexivity. Qed.

Lemma lower_idem s : lower (lower s) = lower s.
Proof.
  induction s as [|c s IH]; cbn [lower]; auto.
  now rewrite lower_ascii_idem, IH.
Qed.

Lemma set_add_NoDup x s : NoDup s -> NoDup (set_add x s).
Proof.
  intros H. unfold set_add. destruct (mem x s) eqn:E; auto.
  apply NoDup_app; auto.
  - repeat constructor. intros [].
  - intros y Hy [<-|[]]. apply JobFacts.mem_In in Hy. congruence.
Qed.

Lemma set_update_NoDup xs : forall s, NoDup s -> NoDup (set_update s xs).
Proof.
  unfold set_update. induction xs as [|x xs IH]; intros s H; cbn [fold_left]; auto.
  apply IH. now apply set_add_NoDup.
Qed.

Lemma set_of_NoDup xs : NoDup (set_of xs).
Proof. apply set_update_NoDup. constructor. Qed.

Lemma lowered_strings_lower l s :
  In s (lowered_strings l) -> lower s = s.
Proof.
  induction l as [|v l IH]; cbn [lowered_strings]; [intros []|].
  destruct v; auto. intros [<-|H]; auto. apply lower_idem.
Qed.

Lemma lowered_strings_app a b :
  lowered_strings (a ++ b) = lowered_strings a ++ lowered_strings b.
Proof.
  induction a as [|v a IH]; cbn [app lowered_strings]; auto.
  destruct v; auto. cbn [app]. now rewrite IH.
Qed.

Lemma lowered_strings_strs l : lowered_strings (map VStr l) = map lower l.
Proof. induction l as [|s l IH]; cbn [map lowered_strings]; congruence. Qed.

(** ** Loops *)

Lemma efold_invariant A S (P : S -> Prop) (body : S -> A -> exc S) xs :
  (forall s x s', P s -> body s x = Ok s' -> P s') ->
  forall s s', P s -> efold body xs s = Ok s' -> P s'.
Proof.
  intros Hb. induction xs as [|x xs IH]; intros s s' Hs H; cbn [efold] in H.
  - now inversion H; subst.
  - destruct (body s x) as [s1|] eqn:E; cbn [ebind] in H; [|discriminate].
    eapply IH; [|exact H]. eapply Hb; eauto.
Qed.

Lemma infer_from_title_NoDup inferred t :
  NoDup inferred -> NoDup (infer_from_title inferred t).
Proof.
  unfold infer_from_title. generalize title_groups as groups.
  intros groups. revert inferred.
  induction groups as [|g groups IH]; intros inferred H; cbn [fold_left]; auto.
  apply IH. destruct (any_in (fst g) t); auto. now apply set_update_NoDup.
Qed.

Lemma infer_from_title_known inferred t :
  incl inferred known_titles -> incl (infer_from_title inferred t) known_titles.
Proof.
  unfold infer_from_title.
  assert (Hg : forall g, In g title_groups -> incl (snd g) known_titles).
  { intros g [<-|[<-|[<-|[]]]]; cbn [snd]; intros x Hx; cbn in Hx |- *; tauto. }
  revert Hg. generalize title_groups as groups.
  intros groups Hg. revert inferred.
  induction groups as [|g groups IH]; intros inferred H; cbn [fold_left]; auto.
  apply IH.
  - intros g' Hg'. apply Hg. now right.
  - destruct (any_in (fst g) t); auto.
    intros x Hx. apply JobFacts.set_update_In in Hx as [Hx|Hx]; auto.
    apply (Hg g (or_introl eq_refl)). exact Hx.
Qed.

Lemma infer_titles_shape projects inferred :
  infer_titles projects = Ok inferred ->
  NoDup inferred /\ incl inferred known_titles.
Proof.
  unfold infer_titles. intros H.
  apply (@efold_invariant _ _
           (fun s => NoDup s /\ incl s known_titles) _ projects) with (s := [])
    in H; auto.
  - intros s x s' [Hn Hi] Hb.
    destruct (lowered_title x) as [t|]; cbn [ebind] in Hb; [|discriminate].
    inversion Hb; subst. split.
    + now apply infer_from_title_NoDup.
    + now apply infer_from_title_known.
  - split; [constructor|intros x []].
Qed.

(** Peels the successful steps off a computation known to return. *)
Ltac step H :=
  match type of H with
  | ebind ?c _ = Ok _ =>
      let E := fresh "E" in
      destruct c eqn:E; cbn [ebind] in H; [|discriminate H]
  end.

(** X1.  Every returned profile keeps its skills lowered and free of
    duplicates, its job titles free of duplicates and among the six titles
    of the keyword groups (so there are at most six), counts no negative
    number of years and carries the two fixed locations. *)
Theorem profile_invariants user_data p :
  extract_user_profile user_data = Ok p ->
  NoDup (skills p)
  /\ (forall s, In s (skills p) -> lower s = s)
  /\ NoDup (job_titles p)
  /\ incl (job_titles p) known_titles
  /\ (List.length (job_titles p) <= 6)%nat
  /\ 0 <= experience_years p
  /\ preferred_locations p = ["Remote"; "India"].
Proof.
  unfold extract_user_profile. intros H.
  repeat step H. inversion H; subst p.
  cbn [skills job_titles experience_years preferred_locations].
  match goal with
  | Ei : infer_titles _ = Ok ?inf |- _ =>
      pose proof Ei as Ei'; apply infer_titles_shape in Ei' as [Hn0 Hi0];
      assert (Ht : NoDup (match inf with
                          | [] => fallback_titles
                          | _ :: _ => inf
                          end)
                   /\ incl (match inf with
                            | [] => fallback_titles
                            | _ :: _ => inf
                            end) known_titles)
        by (destruct inf;
            [split; [apply set_of_NoDup|intros x Hx; cbn in Hx |- *; tauto]
            |now split])
  end.
  destruct Ht as [Hn Hi].
  repeat split; auto.
  - apply set_of_NoDup.
  - intros s Hs. apply (proj1 (JobFacts.set_of_In _ _)) in Hs.
    now apply lowered_strings_lower in Hs.
  - apply (NoDup_incl_length Hn Hi).
  - match goal with El : len ?x = Ok _ |- _ =>
      revert El; unfold len; destruct x; intros El; inversion El
    end; apply Nat2Z.is_nonneg.
Qed.

(** X2.  A field that holds [None], a boolean or a number where a list is
    expected makes the extraction raise [TypeError]: this goes for
    languages, tools, coursework and projects. *)
Theorem scalar_field_raises user_data k v :
  In k ["languages"; "tools"; "coursework"; "projects"] ->
  lookup k user_data = Some v ->
  scalar v = true ->
  extract_user_profile user_data = Raise TypeError.
Proof.
  intros Hk Hl Hv.
  assert (Hi : iter (get_or user_data k (VList [])) = Raise TypeError).
  { unfold get_or. rewrite Hl. destruct v; try discriminate; reflexivity. }
  assert (He : forall acc x, extend acc x = Raise TypeError
                             \/ exists l, extend acc x = Ok l).
  { intros acc x. unfold extend. destruct x; cbn; eauto. }
  unfold extract_user_profile.
  destruct Hk as [<-|[<-|[<-|[<-|[]]]]].
  - unfold extend at 1. now rewrite Hi.
  - destruct (He [] (get_or user_data "languages" (VList []))) as [->|[l ->]];
      auto.
    cbn [ebind]. unfold extend at 1. now rewrite Hi.
  - destruct (He [] (get_or user_data "languages" (VList []))) as [->|[l ->]];
      auto.
    cbn [ebind].
    destruct (He l (get_or user_data "tools" (VList []))) as [->|[l1 ->]]; auto.
    cbn [ebind]. unfold extend at 1. now rewrite Hi.
  - destruct (He [] (get_or user_data "languages" (VList []))) as [->|[l ->]];
      auto.
    cbn [ebind].
    destruct (He l (get_or user_data "tools" (VList []))) as [->|[l1 ->]]; auto.
    cbn [ebind].
    destruct (He l1 (get_or user_data "coursework" (VList []))) as [->|[l2 ->]];
      auto.
    cbn [ebind]. now rewrite Hi.
Qed.

(** ** Candidate data of the stored shape, in closed form *)

Lemma project_skills_eq (ps : list project) : forall sk,
  project_skills
    (map (fun p => VDict [ ("title", VStr (project_title p));
                           ("technologies", strs (technologies p)) ]) ps) sk
  = Ok (sk ++ map VStr (flat_map technologies ps)).
Proof.
  unfold project_skills.
  induction ps as [|p ps IH]; intros sk; cbn [map efold flat_map].
  - now rewrite app_nil_r.
  - cbn [get_method ebind].
    change (get_or [("title", VStr (project_title p));
                    ("technologies", strs (technologies p))]
                   "technologies" (VList []))
      with (strs (technologies p)).
    unfold extend, strs. cbn [iter ebind]. rewrite IH.
    now rewrite map_app, app_assoc.
Qed.

Lemma bullet_loop_eq (items : list string) : forall sk,
  efold (fun sk item =>
           ebind (split_method item) (fun words =>
           Ok (sk ++ map VStr
                 (filter (fun w => (3 <? String.length w)%nat) words))))
        (map VStr items) sk
  = Ok (sk ++ map VStr
          (flat_map (fun item =>
                       filter (fun w => (3 <? String.length w)%nat) (split item))
                    items)).
Proof.
  induction items as [|item items IH]; intros sk; cbn [map efold flat_map].
  - now rewrite app_nil_r.
  - cbn [split_method ebind]. rewrite IH. now rewrite map_app, app_assoc.
Qed.

Lemma experience_skills_eq (es : list (list string)) : forall sk,
  experience_skills
    (map (fun items => VDict [("items", strs items)]) es) sk
  = Ok (sk ++ map VStr
          (flat_map
             (flat_map (fun item =>
                          filter (fun w => (3 <? String.length w)%nat)
                                 (split item)))
             es)).
Proof.
  unfold experience_skills.
  induction es as [|items es IH]; intros sk; cbn [map efold flat_map].
  - now rewrite app_nil_r.
  - cbn [get_method ebind].
    change (get_or [("items", strs items)] "items" (VList []))
      with (strs items).
    unfold strs at 1. cbn [iter ebind]. rewrite bullet_loop_eq.
    cbn [ebind]. rewrite IH. now rewrite map_app, app_assoc.
Qed.

Lemma infer_loop_eq (ps : list project) : forall start,
  efold (fun inferred proj =>
           ebind (lowered_title proj) (fun t =>
           Ok (infer_from_title inferred t)))
        (map (fun p => VDict [ ("title", VStr (project_title p));
                               ("technologies", strs (technologies p)) ]) ps)
        start
  = Ok (fold_left infer_from_title
          (map (fun p => lower (project_title p)) ps) start).
Proof.
  induction ps as [|p ps IH]; intros start; cbn [map efold fold_left]; auto.
  change (lowered_title
            (VDict [ ("title", VStr (project_title p));
                     ("technologies", strs (technologies p)) ]))
    with (Ok (lower (project_title p))).
  cbn [ebind]. apply IH.
Qed.

(** The profile of candidate data of the stored shape, in the order in
    which the model enumerates its sets. *)
Lemma extract_candidate_eq c :
  extract_user_profile (candidate_data c)
  = Ok {| skills :=
            set_of (map lower
              (languages c ++ tools c ++ coursework c
               ++ flat_map technologies (projects c)
               ++ flat_map
                    (flat_map (fun item =>
                                 filter (fun w => (3 <? String.length w)%nat)
                                        (split item)))
                    (experience c)));
          experience_years := Z.of_nat (List.length (experience c));
          education_level := match education c with
                             | [] => VStr ""
                             | d :: _ => VStr d
                             end;
          preferred_locations := ["Remote"; "India"];
          job_titles :=
            match fold_left infer_from_title
                    (map (fun p => lower (project_title p)) (projects c)) []
            with
            | [] => ["Software Engineer"; "AI Engineer"]
            | inferred => inferred
            end |}.
Proof.
  unfold extract_user_profile.
  change (get_or (candidate_data c) "languages" (VList []))
    with (strs (languages c)).
  change (get_or (candidate_data c) "tools" (VList []))
    with (strs (tools c)).
  change (get_or (candidate_data c) "coursework" (VList []))
    with (strs (coursework c)).
  change (get_or (candidate_data c) "projects" (VList []))
    with (VList (map (fun p => VDict [ ("title", VStr (project_title p));
                                       ("technologies", strs (technologies p)) ])
                     (projects c))).
  change (get_or (candidate_data c) "experience" (VList []))
    with (VList (map (fun items => VDict [("items", strs items)]) (experience c))).
  change (get_or (candidate_data c) "education" (VList []))
    with (VList (map (fun d => VDict [("degree", VStr d)]) (education c))).
  repeat (rewrite JobEffects.extend_strs; cbn [ebind iter]).
  rewrite project_skills_eq. cbn [ebind].
  rewrite experience_skills_eq. cbn [ebind len].
  unfold infer_titles. rewrite infer_loop_eq.
  rewrite length_map.
  assert (Hlevel :
            (if truthy (VList (map (fun d => VDict [("degree", VStr d)])
                                   (education c)))
             then ebind (first_item
                           (VList (map (fun d => VDict [("degree", VStr d)])
                                       (education c))))
                        (fun e0 => get_method e0 "degree" (VStr "B.Tech"))
             else Ok (VStr ""))
            = Ok (match education c with
                  | [] => VStr ""
                  | d :: _ => VStr d
                  end)).
  { destruct (education c); reflexivity. }
  rewrite Hlevel. cbn [ebind]. f_equal. f_equal.
  - rewrite !lowered_strings_app, !lowered_strings_strs.
    cbn [lowered_strings app].
    now rewrite !map_app, <- !app_assoc.
  - now destruct (fold_left infer_from_title
                    (map (fun p => lower (project_title p)) (projects c)) []).
Qed.

Lemma infer_from_title_In t x inferred :
  In x (infer_from_title inferred t)
  <-> In x inferred
      \/ exists g, In g title_groups /\ any_in (fst g) t = true /\ In x (snd g).
Proof.
  unfold infer_from_title. generalize title_groups as groups.
  intros groups. revert inferred.
  induction groups as [|g groups IH]; intros inferred; cbn [fold_left].
  - split; [now left|]. intros [H|(g & [] & _)]. exact H.
  - rewrite IH. destruct (any_in (fst g) t) eqn:Eg.
    + rewrite JobFacts.set_update_In. split.
      * intros [[H|H]|(g' & Hin & Hm & Hx)]; [now left| |].
        -- right. exists g. repeat split; auto. now left.
        -- right. exists g'. repeat split; auto. now right.
      * intros [H|(g' & [<-|Hin] & Hm & Hx)]; [now left; left| |].
        -- left. now right.
        -- right. now exists g'.
    + split.
      * intros [H|(g' & Hin & Hm & Hx)]; [now left|].
        right. exists g'. repeat split; auto. now right.
      * intros [H|(g' & [<-|Hin] & Hm & Hx)]; [now left|congruence|].
        right. now exists g'.
Qed.

Lemma infer_fold_In ts : forall start x,
  In x (fold_left infer_from_title ts start)
  <-> In x start
      \/ exists t g, In t ts /\ In g title_groups
                     /\ any_in (fst g) t = true /\ In x (snd g).
Proof.
  induction ts as [|t ts IH]; intros start x; cbn [fold_left].
  - split; [now left|]. intros [H|(t & g & [] & _)]. exact H.
  - rewrite IH, infer_from_title_In. split.
    + intros [[H|(g & Hg & Hm & Hx)]|(t' & g & Ht & Hg & Hm & Hx)].
      * now left.
      * right. exists t, g. repeat split; auto. now left.
      * right. exists t', g. repeat split; auto. now right.
    + intros [H|(t' & g & [<-|Ht] & Hg & Hm & Hx)].
      * now left; left.
      * left. right. now exists g.
      * right. now exists t', g.
Qed.

Lemma group_titles g : In g title_groups -> exists x, In x (snd g).
Proof.
  intros [<-|[<-|[<-|[]]]]; cbn [snd]; eexists; now left.
Qed.

(** X3.  On candidate data of the stored shape the extraction returns a
    profile whose skills are exactly the lowered languages, tools,
    coursework, project technologies and words longer than three
    characters of the experience bullet points; whose years are the
    number of experience entries; whose education level is the first
    degree, or the empty string when there is none; and whose job titles
    are exactly the titles of the keyword groups that occur in a lowered
    project title, or the fall-back pair when no group occurs in any. *)
Theorem extract_stored_candidate c :
  exists p,
    extract_user_profile (candidate_data c) = Ok p
    /\ (forall s,
          In s (skills p)
          <-> exists x,
                In x (languages c ++ tools c ++ coursework c
                      ++ flat_map technologies (projects c)
                      ++ flat_map
                           (flat_map (fun item =>
                                        filter (fun w => (3 <? String.length w)%nat)
                                               (split item)))
                           (experience c))
                /\ s = lower x)
    /\ experience_years p = Z.of_nat (List.length (experience c))
    /\ education_level p = match education c with
                           | [] => VStr ""
                           | d :: _ => VStr d
                           end
    /\ (forall t,
          In t (job_titles p)
          <-> (exists pr g,
                 In pr (projects c) /\ In g title_groups
                 /\ any_in (fst g) (lower (project_title pr)) = true
                 /\ In t (snd g))
              \/ ((forall pr g,
                     In pr (projects c) -> In g title_groups ->
                     any_in (fst g) (lower (project_title pr)) = false)
                  /\ In t ["Software Engineer"; "AI Engineer"])).
Proof.
  eexists. split; [apply extract_candidate_eq|].
  cbn [skills experience_years education_level job_titles].
  split; [|split; [reflexivity|split; [reflexivity|]]].
  - intros s. rewrite JobFacts.set_of_In, in_map_iff. split.
    + intros (x & <- & Hx). now exists x.
    + intros (x & Hx & ->). now exists x.
  - intros t.
    pose proof (infer_fold_In
                  (map (fun p => lower (project_title p)) (projects c)) [])
      as Hin.
    assert (Hmatch : forall x,
              In x (fold_left infer_from_title
                      (map (fun p => lower (project_title p)) (projects c)) [])
              <-> exists pr g,
                    In pr (projects c) /\ In g title_groups
                    /\ any_in (fst g) (lower (project_title pr)) = true
                    /\ In x (snd g)).
    { intros x. rewrite Hin. split.
      - intros [[]|(t' & g & Ht & Hg & Hm & Hx)].
        apply in_map_iff in Ht as (pr & <- & Hpr). now exists pr, g.
      - intros (pr & g & Hpr & Hg & Hm & Hx). right.
        exists (lower (project_title pr)), g. repeat split; auto.
        apply in_map_iff. now exists pr. }
    destruct (fold_left infer_from_title
                (map (fun p => lower (project_title p)) (projects c)) [])
      as [|y inferred] eqn:E.
    + assert (Hnone : forall pr g,
                In pr (projects c) -> In g title_groups ->
                any_in (fst g) (lower (project_title pr)) = false).
      { intros pr g Hpr Hg.
        destruct (any_in (fst g) (lower (project_title pr))) eqn:Hm; auto.
        destruct (group_titles Hg) as [x Hx].
        elim (proj2 (Hmatch x)). now exists pr, g. }
      split.
      * intros H. right. now split.
      * intros [(pr & g & Hpr & Hg & Hm & _)|[_ H]]; [|exact H].
        rewrite (Hnone pr g Hpr Hg) in Hm. discriminate.
    + rewrite Hmatch. split; [now left|].
      intros [H|[Hnone _]]; [exact H|].
      destruct (proj1 (Hmatch y) (or_introl eq_refl))
        as (pr & g & Hpr & Hg & Hm & _).
      rewrite (Hnone pr g Hpr Hg) in Hm. discriminate.
Qed.

End ProfileFacts.

(* ===================================================================== *)
(** * More about the job sources *)
(* ===================================================================== *)

Module SourceFacts.
Import Py PyFacts JobRecommendationService.

(** Peels the successful steps off a computation known to return. *)
Ltac step H :=
  match type of H with
  | ebind ?c _ = Ok _ =>
      let E := fresh "E" in
      destruct c eqn:E; cbn [ebind] in H; [|discriminate H]
  end.

(** ** What a returned posting looks like *)

Lemma emap_Forall A B (f : A -> exc B) (P : B -> Prop) xs ys :
  (forall x y, f x = Ok y -> P y) ->
  emap f xs = Ok ys -> Forall P ys.
Proof.
  intros Hf H. apply emap_Forall2 in H.
  induction H; constructor; eauto.
Qed.

Lemma jsearch_row_shape job row :
  jsearch_row job = Ok row ->
  map fst row = posting_keys /\ lookup "source" row = Some (VStr "JSearch").
Proof.
  destruct job; try discriminate. cbn. intros H. inversion H. now split.
Qed.

Lemma adzuna_row_shape job row :
  adzuna_row job = Ok row ->
  map fst row = posting_keys /\ lookup "source" row = Some (VStr "Adzuna").
Proof.
  unfold adzuna_row. intros H. repeat step H. inversion H. now split.
Qed.

Lemma remoteok_row_shape title job row :
  remoteok_row title job = Ok row ->
  map fst row = posting_keys
  /\ lookup "source" row = Some (VStr "RemoteOK")
  /\ lookup "title" row = Some title.
Proof.
  unfold remoteok_row. intros H. repeat step H. inversion H. now repeat split.
Qed.

(** What the guarded body of a search returned, if the search returned
    anything. *)
Lemma guarded_result (body : M (list dict)) w jobs w' job :
  try_except body (fun _ => ret []) w = (Ok jobs, w') ->
  In job jobs ->
  body w = (Ok jobs, w').
Proof.
  unfold try_except, ret. destruct (body w) as [[l|e] w1]; intros H Hin.
  - exact H.
  - inversion H; subst. elim Hin.
Qed.

Lemma request_then w req (k : body -> exc (list dict)) jobs w' :
  bind (requests_get req) (fun r => lift (k r)) w = (Ok jobs, w') ->
  exists b, k b = Ok jobs.
Proof.
  unfold bind, requests_get, lift.
  destruct (http w (List.length (sent w)) req) as [|b]; [discriminate|].
  intros H. inversion H. now exists b.
Qed.

Lemma remoteok_loop_shape keywords rows : forall acc jobs,
  efold (fun jobs job =>
           ebind (get_method job "position" (VStr "")) (fun title =>
           ebind (lower_method title) (fun t =>
           if contains (lower keywords) t
           then ebind (remoteok_row title job) (fun row => Ok (jobs ++ [row]))
           else Ok jobs)))
        rows acc = Ok jobs ->
  forall (P : dict -> Prop),
    (forall title t row job,
       lower_method title = Ok t -> contains (lower keywords) t = true ->
       remoteok_row title job = Ok row -> P row) ->
    Forall P acc -> Forall P jobs.
Proof.
  induction rows as [|job rows IH]; intros acc jobs H P HP Hacc;
    cbn [efold] in H.
  - now inversion H; subst.
  - destruct (get_method job "position" (VStr "")) as [title|] eqn:Et;
      cbn [ebind] in H; [|discriminate].
    destruct (lower_method title) as [t|] eqn:El; cbn [ebind] in H;
      [|discriminate].
    destruct (contains (lower keywords) t) eqn:Ec.
    + destruct (remoteok_row title job) as [row|] eqn:Er; cbn [ebind] in H;
        [|discriminate].
      apply (IH _ _ H P HP). apply Forall_app. split; auto.
      constructor; [|constructor]. eapply HP; eauto.
    + apply (IH _ _ H P HP Hacc).
Qed.

(** X4.  Whatever a source returns is a posting of the common shape: the seven
    keys in their order and the name of the source.  A posting from
    RemoteOK moreover has a title that is a string and contains the
    keywords, case ignored. *)
Theorem sources_normalise w q limit :
  (forall jobs w' job,
     search_jobs_jsearch q limit w = (Ok jobs, w') -> In job jobs ->
     map fst job = posting_keys
     /\ lookup "source" job = Some (VStr "JSearch"))
  /\ (forall jobs w' job,
        search_jobs_adzuna q w = (Ok jobs, w') -> In job jobs ->
        map fst job = posting_keys
        /\ lookup "source" job = Some (VStr "Adzuna"))
  /\ (forall jobs w' job,
        search_jobs_remoteok q w = (Ok jobs, w') -> In job jobs ->
        map fst job = posting_keys
        /\ lookup "source" job = Some (VStr "RemoteOK")
        /\ exists title,
             lookup "title" job = Some (VStr title)
             /\ contains (lower q) (lower title) = true).
Proof.
  split; [|split].
  - intros jobs w' job H Hin. unfold search_jobs_jsearch in H.
    destruct (unset (RAPIDAPI_KEY w)).
    { inversion H; subst. elim Hin. }
    apply (guarded_result _ _ job) in H; auto.
    unfold jsearch_try in H. apply request_then in H as [b H].
    repeat step H.
    assert (HF : Forall (fun job =>
                   map fst job = posting_keys
                   /\ lookup "source" job = Some (VStr "JSearch")) jobs)
      by (eapply emap_Forall; [|exact H]; intros x y; apply jsearch_row_shape).
    rewrite Forall_forall in HF. now apply HF.
  - intros jobs w' job H Hin. unfold search_jobs_adzuna in H.
    destruct (unset (ADZUNA_APP_ID w) || unset (ADZUNA_API_KEY w)).
    { inversion H; subst. elim Hin. }
    apply (guarded_result _ _ job) in H; auto.
    unfold adzuna_try in H. apply request_then in H as [b H].
    repeat step H.
    assert (HF : Forall (fun job =>
                   map fst job = posting_keys
                   /\ lookup "source" job = Some (VStr "Adzuna")) jobs)
      by (eapply emap_Forall; [|exact H]; intros x y; apply adzuna_row_shape).
    rewrite Forall_forall in HF. now apply HF.
  - intros jobs w' job H Hin. unfold search_jobs_remoteok in H.
    apply (guarded_result _ _ job) in H; auto.
    unfold remoteok_try in H. apply request_then in H as [b H].
    repeat step H.
    assert (HF : Forall (fun job =>
                   map fst job = posting_keys
                   /\ lookup "source" job = Some (VStr "RemoteOK")
                   /\ exists title,
                        lookup "title" job = Some (VStr title)
                        /\ contains (lower q) (lower title) = true) jobs).
    { eapply remoteok_loop_shape; [exact H| |constructor].
      intros title t row job0 Hl Hc Hr.
      apply remoteok_row_shape in Hr as (Hk & Hs & Ht).
      split; [exact Hk|]. split; [exact Hs|].
      destruct title; try discriminate. inversion Hl; subst.
      eexists. split; [exact Ht|exact Hc]. }
    rewrite Forall_forall in HF. now apply HF.
Qed.

(** ** One bad row empties the batch *)

Lemma emap_raises A B (f : A -> exc B) xs :
  Exists (fun x => exists e, f x = Raise e) xs ->
  exists e, emap f xs = Raise e.
Proof.
  induction 1 as [x xs [e He]|x xs _ [e IH]]; cbn [emap].
  - rewrite He. now exists e.
  - destruct (f x) as [y|e']; cbn [ebind]; [|now exists e'].
    rewrite IH. now exists e.
Qed.

Lemma efold_raises A S (body : S -> A -> exc S) xs :
  Exists (fun x => forall s, exists e, body s x = Raise e) xs ->
  forall s, exists e, efold body xs s = Raise e.
Proof.
  induction 1 as [x xs Hx|x xs _ IH]; intros s; cbn [efold].
  - destruct (Hx s) as [e He]. rewrite He. now exists e.
  - destruct (body s x) as [s'|e']; cbn [ebind]; [apply IH|now exists e'].
Qed.

Lemma jsearch_row_dict d : exists row, jsearch_row (VDict d) = Ok row.
Proof. cbn. now eexists. Qed.

Lemma jsearch_row_other x :
  is_dict x = false -> exists e, jsearch_row x = Raise e.
Proof. destruct x; try discriminate; intros _; cbn; now eexists. Qed.

(** X5.  JSearch maps the rows of a well-formed reply one to one; a single row
    that is not an object makes it return nothing at all, and so does
    RemoteOK for a row after the first. *)
Theorem malformed_row_empties_batch w q limit :
  (forall d rows,
     unset (RAPIDAPI_KEY w) = false ->
     (forall req, http w (List.length (sent w)) req
                  = Response (JsonBody (VDict d))) ->
     lookup "data" d = Some (VList rows) ->
     (Forall (fun r => is_dict r = true) rows ->
      exists jobs w', search_jobs_jsearch q limit w = (Ok jobs, w')
                      /\ List.length jobs = List.length rows)
     /\ (Exists (fun r => is_dict r = false) rows ->
         exists w', search_jobs_jsearch q limit w = (Ok [], w')))
  /\ (forall first rows,
        (forall req, http w (List.length (sent w)) req
                     = Response (JsonBody (VList (first :: rows)))) ->
        Exists (fun r => is_dict r = false) rows ->
        exists w', search_jobs_remoteok q w = (Ok [], w')).
Proof.
  split.
  - intros d rows Hkey Hhttp Hdata.
    assert (Hrun : forall r,
               emap jsearch_row rows = r ->
               exists w', jsearch_try q w = (r, w')).
    { intros r Hr. unfold jsearch_try, bind, requests_get, lift.
      rewrite Hhttp. cbn [json ebind get_method]. unfold get_or.
      rewrite Hdata. cbn [iter ebind]. rewrite Hr. now eexists. }
    unfold search_jobs_jsearch, try_except, ret. rewrite Hkey. split.
    + intros Hall.
      destruct (@emap_defined _ _ jsearch_row rows) as [jobs Hj].
      { eapply Forall_impl; [|exact Hall]. intros r Hr.
        destruct r; try discriminate. apply jsearch_row_dict. }
      destruct (Hrun _ Hj) as [w' Hw]. rewrite Hw.
      exists jobs, w'. split; auto. eapply emap_length; eauto.
    + intros Hbad.
      destruct (@emap_raises _ _ jsearch_row rows) as [e He].
      { eapply Exists_impl; [|exact Hbad]. intros r. apply jsearch_row_other. }
      destruct (Hrun _ He) as [w' Hw]. rewrite Hw. now exists w'.
  - intros first rows Hhttp Hbad.
    unfold search_jobs_remoteok, try_except, ret.
    unfold remoteok_try, bind, requests_get, lift. rewrite Hhttp.
    cbn [json ebind slice_from_1 skipn iter].
    match goal with
    | |- context [efold ?body rows []] =>
        destruct (@efold_raises _ _ body rows) with (s := @nil dict) as [e He]
    end.
    + eapply Exists_impl; [|exact Hbad]. intros r Hr s.
      destruct r; try discriminate; cbn; now eexists.
    + rewrite He. now eexists.
Qed.

(** ** How many requests are sent *)

Lemma sends_refl w : sends_at_most 0 w w.
Proof.
  unfold sends_at_most. repeat split; auto.
  exists []. now rewrite app_nil_r.
Qed.

Lemma sends_trans n m w w1 w2 :
  sends_at_most n w w1 -> sends_at_most m w1 w2 ->
  sends_at_most (n + m) w w2.
Proof.
  intros (A1 & A2 & A3 & A4 & A5 & A6 & e1 & Ae & Al)
         (B1 & B2 & B3 & B4 & B5 & B6 & e2 & Be & Bl).
  unfold sends_at_most. repeat split; try congruence.
  exists (e1 ++ e2). split.
  - now rewrite Be, Ae, app_assoc.
  - rewrite length_app. lia.
Qed.

Lemma sends_more n m w w' :
  (n <= m)%nat -> sends_at_most n w w' -> sends_at_most m w w'.
Proof.
  intros Hle (A1 & A2 & A3 & A4 & A5 & A6 & e1 & Ae & Al).
  unfold sends_at_most. repeat split; auto.
  exists e1. split; auto. lia.
Qed.

Lemma requests_get_sends req w :
  sends_at_most 1 w (snd (requests_get req w)).
Proof.
  unfold requests_get.
  destruct (http w (List.length (sent w)) req); cbn [snd];
    unfold sends_at_most; cbn; repeat split; auto; exists [req]; auto.
Qed.

Lemma bind_sends A B (c : M A) (k : A -> M B) n m w :
  sends_at_most n w (snd (c w)) ->
  (forall a w1, sends_at_most m w1 (snd (k a w1))) ->
  sends_at_most (n + m) w (snd (bind c k w)).
Proof.
  intros Hc Hk. unfold bind. destruct (c w) as [[a|e] w1]; cbn [snd] in *.
  - eapply sends_trans; eauto.
  - eapply sends_more; [|exact Hc]. lia.
Qed.

Lemma guarded_sends (body : M (list dict)) n w :
  sends_at_most n w (snd (body w)) ->
  sends_at_most n w (snd (try_except body (fun _ => ret []) w)).
Proof.
  unfold try_except, ret. now destruct (body w) as [[a|e] w1].
Qed.

Lemma request_lift_sends req (k : body -> exc (list dict)) w :
  sends_at_most 1 w (snd (bind (requests_get req) (fun r => lift (k r)) w)).
Proof.
  apply (@bind_sends _ _ (requests_get req) (fun r => lift (k r)) 1 0).
  - apply requests_get_sends.
  - intros a w1. apply sends_refl.
Qed.

Lemma jsearch_sends q limit w :
  sends_at_most 1 w (snd (search_jobs_jsearch q limit w)).
Proof.
  unfold search_jobs_jsearch. destruct (unset (RAPIDAPI_KEY w)).
  - apply sends_more with 0%nat; [lia|apply sends_refl].
  - apply guarded_sends. unfold jsearch_try. apply request_lift_sends.
Qed.

Lemma remoteok_sends q w :
  sends_at_most 1 w (snd (search_jobs_remoteok q w)).
Proof.
  unfold search_jobs_remoteok. apply guarded_sends.
  unfold remoteok_try. apply request_lift_sends.
Qed.

Lemma adzuna_sends q w :
  sends_at_most 1 w (snd (search_jobs_adzuna q w)).
Proof.
  unfold search_jobs_adzuna.
  destruct (unset (ADZUNA_APP_ID w) || unset (ADZUNA_API_KEY w)).
  - apply sends_more with 0%nat; [lia|apply sends_refl].
  - apply guarded_sends. unfold adzuna_try. apply request_lift_sends.
Qed.

Lemma mfold_sends A T (body : T -> A -> M T) m xs :
  (forall s x w, sends_at_most m w (snd (body s x w))) ->
  forall s w, sends_at_most (List.length xs * m) w (snd (mfold body xs s w)).
Proof.
  intros Hb. induction xs as [|x xs IH]; intros s w; cbn [mfold List.length].
  - apply sends_refl.
  - replace (S (List.length xs) * m)%nat with (m + List.length xs * m)%nat
      by lia.
    apply bind_sends; auto.
Qed.

Lemma fetch_jobs_sends titles w :
  sends_at_most (List.length titles * 3) w (snd (fetch_jobs titles w)).
Proof.
  unfold fetch_jobs. apply mfold_sends. intros s x w0.
  apply (@bind_sends _ _ _ _ 1 2); [apply jsearch_sends|].
  intros a w1. apply (@bind_sends _ _ _ _ 1 1); [apply remoteok_sends|].
  intros b w2. apply (@bind_sends _ _ _ _ 1 0); [apply adzuna_sends|].
  intros c w3. apply sends_refl.
Qed.

(** X6.  One search sends at most one request and changes nothing else; one
    call of [get_recommended_jobs] sends at most nine, and apart from
    them changes at most the cache file. *)
Theorem at_most_nine_requests (isoformat : Z -> string) user_data max_results
    q limit w :
  sends_at_most 1 w (snd (search_jobs_jsearch q limit w))
  /\ sends_at_most 1 w (snd (search_jobs_remoteok q w))
  /\ sends_at_most 1 w (snd (search_jobs_adzuna q w))
  /\ exists w1,
       sends_at_most 9 w w1
       /\ (snd (get_recommended_jobs isoformat user_data max_results w) = w1
           \/ exists jobs,
                snd (get_recommended_jobs isoformat user_data max_results w)
                = snd (save_jobs_cache isoformat jobs w1)).
Proof.
  split; [apply jsearch_sends|]. split; [apply remoteok_sends|].
  split; [apply adzuna_sends|].
  remember (get_recommended_jobs isoformat user_data max_results w) as r eqn:Hr.
  unfold get_recommended_jobs in Hr.
  unfold bind at 1 in Hr. unfold lift at 1 in Hr.
  destruct (extract_user_profile user_data) as [p|].
  2: { exists w. split; [apply sends_more with 0%nat; [lia|apply sends_refl]|].
       left. now subst r. }
  unfold bind at 1 in Hr.
  pose proof (fetch_jobs_sends (firstn 3 (job_titles p)) w) as Hf.
  assert (Hn : sends_at_most 9 w (snd (fetch_jobs (firstn 3 (job_titles p)) w))).
  { eapply sends_more; [|exact Hf].
    pose proof (firstn_le_length 3 (job_titles p)). lia. }
  destruct (fetch_jobs (firstn 3 (job_titles p)) w) as [[all_jobs|e] w1];
    cbn [snd] in Hn; exists w1; (split; [exact Hn|]).
  2: { left. now subst r. }
  unfold bind at 1 in Hr. unfold lift at 1 in Hr.
  destruct (dedupe all_jobs) as [unique|]; [|left; now subst r].
  unfold bind at 1 in Hr. unfold lift at 1 in Hr.
  destruct (rank_jobs_by_relevance unique p) as [ranked|]; [|left; now subst r].
  right. exists (slice_to ranked max_results). now subst r.
Qed.

End SourceFacts.

(* ===================================================================== *)
(** * More about ranking and removing duplicates *)
(* ===================================================================== *)

Module RankFacts.
Import Py PyFacts JobRecommendationService.

Local Arguments Z.mul : simpl never.
Local Arguments Z.add : simpl never.
Local Arguments Z.of_nat : simpl never.

(** ** Scoring, whenever it returns *)

Lemma setitem_same k v d : lookup k d = Some v -> setitem k v d = d.
Proof.
  induction d as [|[k' v'] d IH]; cbn [lookup setitem]; [discriminate|].
  destruct (String.eqb_spec k k') as [->|Hne].
  - intros H. now inversion H.
  - intros H. now rewrite IH.
Qed.

Lemma title_loop_any job t titles : forall score,
  get_or job "title" (VStr "") = VStr t ->
  efold (fun score title =>
           ebind (lower_method (get_or job "title" (VStr ""))) (fun jt =>
           Ok (if contains (lower title) jt then score + 15 else score)))
        titles score
  = Ok (score + 15 * Z.of_nat (List.length
                    (filter (fun title => contains (lower title) (lower t)) titles))).
Proof.
  intros score Ht. revert score.
  induction titles as [|title titles IH]; intros score; cbn [efold filter].
  - cbn [List.length]. f_equal. lia.
  - rewrite Ht at 1. cbn [lower_method ebind].
    destruct (contains (lower title) (lower t)); rewrite IH; f_equal;
      cbn [List.length]; lia.
Qed.

Lemma search_text_any job t d :
  get_or job "title" (VStr "") = VStr t ->
  get_or job "description" (VStr "") = VStr d ->
  search_text job = Ok (lower ((t ++ " ") ++ d)%string).
Proof. intros Ht Hd. unfold search_text. now rewrite Ht, Hd. Qed.

Lemma score_job_steps p job t d :
  get_or job "title" (VStr "") = VStr t ->
  get_or job "description" (VStr "") = VStr d ->
  score_job p job
  = ebind (slice_method (get_or job "description" VNone) 300)
          (fun _ => Ok (scored_as p job t d)).
Proof.
  intros Ht Hd. unfold score_job. rewrite (search_text_any job Ht Hd).
  cbv zeta. cbn [ebind].
  rewrite JobFacts.fuzzy_loop. cbn [fst snd app].
  rewrite (@title_loop_any job t (job_titles p) _ Ht). cbn [ebind].
  unfold get_or at 1.
  rewrite !lookup_setitem_other by discriminate.
  fold (get_or job "description" VNone).
  destruct (slice_method (get_or job "description" VNone) 300); cbn [ebind];
    auto.
  unfold scored_as. do 3 f_equal. lia.
Qed.

(** Scoring raises nothing but [TypeError], and returns exactly on the
    jobs that are [scorable]. *)
Lemma score_job_cases p job :
  (scorable job = true
   /\ exists t d,
        get_or job "title" (VStr "") = VStr t
        /\ lookup "description" job = Some (VStr d)
        /\ score_job p job = Ok (scored_as p job t d))
  \/ (scorable job = false /\ score_job p job = Raise TypeError).
Proof.
  unfold scorable, has_str.
  destruct (lookup "title" job) as [vt|] eqn:Et;
    destruct (lookup "description" job) as [vd|] eqn:Ed.
  - destruct vt; try (right; split; [reflexivity|];
                      unfold score_job, search_text, get_or; rewrite Et;
                      reflexivity).
    destruct vd; try (right; split; [reflexivity|];
                      unfold score_job, search_text, get_or; rewrite Et, Ed;
                      reflexivity).
    left. split; [reflexivity|]. exists s, s0.
    assert (Ht : get_or job "title" (VStr "") = VStr s)
      by (unfold get_or; now rewrite Et).
    assert (Hd : get_or job "description" (VStr "") = VStr s0)
      by (unfold get_or; now rewrite Ed).
    split; [exact Ht|]. split; [reflexivity|].
    rewrite (score_job_steps p job Ht Hd). unfold get_or. now rewrite Ed.
  - right.
    destruct vt; try (split; [reflexivity|];
                      unfold score_job, search_text, get_or; rewrite Et;
                      reflexivity).
    split; [reflexivity|].
    assert (Ht : get_or job "title" (VStr "") = VStr s)
      by (unfold get_or; now rewrite Et).
    assert (Hd : get_or job "description" (VStr "") = VStr "")
      by (unfold get_or; now rewrite Ed).
    rewrite (score_job_steps p job Ht Hd). unfold get_or. now rewrite Ed.
  - destruct vd; try (right; split; [reflexivity|];
                      unfold score_job, search_text, get_or; rewrite Et, Ed;
                      reflexivity).
    left. split; [reflexivity|]. exists EmptyString, s.
    assert (Ht : get_or job "title" (VStr "") = VStr "")
      by (unfold get_or; now rewrite Et).
    assert (Hd : get_or job "description" (VStr "") = VStr s)
      by (unfold get_or; now rewrite Ed).
    split; [exact Ht|]. split; [reflexivity|].
    rewrite (score_job_steps p job Ht Hd). unfold get_or. now rewrite Ed.
  - right. split; [reflexivity|].
    assert (Ht : get_or job "title" (VStr "") = VStr "")
      by (unfold get_or; now rewrite Et).
    assert (Hd : get_or job "description" (VStr "") = VStr "")
      by (unfold get_or; now rewrite Ed).
    rewrite (score_job_steps p job Ht Hd). unfold get_or. now rewrite Ed.
Qed.



(** ** What ranking writes and what it keeps *)

Lemma scored_fields p job job' :
  score_job p job = Ok job' ->
  (forall k, k <> "matched_skills" -> k <> "relevance_score" ->
             lookup k job' = lookup k job)
  /\ (exists matched, lookup "matched_skills" job' = Some (VList matched))
  /\ (exists a b c,
        lookup "relevance_score" job' = Some (VInt (10 * Z.of_nat a
                                                    + 5 * Z.of_nat b
                                                    + 15 * Z.of_nat c))
        /\ (a <= List.length (set_of (skills p)))%nat
        /\ (b <= 7)%nat
        /\ (c <= List.length (job_titles p))%nat).
Proof.
  intros H.
  destruct (score_job_cases p job) as [(_ & t & d & _ & _ & Hok)|[_ Hr]];
    [|congruence].
  rewrite Hok in H. inversion H; subst job'. clear H.
  unfold scored_as. cbv zeta. split; [|split].
  - intros k H1 H2. now rewrite !lookup_setitem_other by auto.
  - eexists. rewrite lookup_setitem_other by discriminate.
    apply lookup_setitem_same.
  - eexists _, _, _. split; [apply lookup_setitem_same|].
    split; [apply filter_length_le|].
    split; [|apply filter_length_le].
    apply (filter_length_le _ synonyms).
Qed.

(** X8.  Every job that ranking returns is one of the jobs it was given, with
    its entries unchanged except for [matched_skills], now a list, and
    [relevance_score], now an integer: a multiple of 5 between 0 and ten
    for each distinct profile skill, five for each of the seven concept
    groups and fifteen for each profile title. *)
Theorem rank_keeps_fields_and_bounds jobs p out job' :
  rank_jobs_by_relevance jobs p = Ok out ->
  In job' out ->
  exists job,
    In job jobs
    /\ (forall k, k <> "matched_skills" -> k <> "relevance_score" ->
                  lookup k job' = lookup k job)
    /\ (exists matched, lookup "matched_skills" job' = Some (VList matched))
    /\ 0 <= relevance_score job'
          <= 10 * Z.of_nat (List.length (set_of (skills p))) + 35
             + 15 * Z.of_nat (List.length (job_titles p))
    /\ (relevance_score job' mod 5 = 0).
Proof.
  intros Hr Hin.
  destruct (JobFacts.rank_returns_only_after_scoring p jobs Hr) as [scored Hs].
  destruct (JobFacts.rank_after_scoring p jobs Hs) as (out' & Hr' & Hp & _).
  rewrite Hr in Hr'. inversion Hr'; subst out'.
  apply (Permutation_in _ Hp) in Hin.
  apply emap_Forall2 in Hs.
  assert (Hex : exists job, In job jobs /\ score_job p job = Ok job').
  { clear Hr Hr' Hp. induction Hs as [|job j' jobs scored Hj _ IH].
    - elim Hin.
    - destruct Hin as [<-|Hin].
      + exists job. split; [now left|exact Hj].
      + destruct (IH Hin) as (job0 & H0 & H1). exists job0. split; auto.
        now right. }
  destruct Hex as (job & Hjob & Hscore).
  destruct (scored_fields p job Hscore)
    as (Hkeep & Hm & a & b & c & Hrs & Ha & Hb & Hc).
  exists job. split; [exact Hjob|]. split; [exact Hkeep|]. split; [exact Hm|].
  unfold relevance_score. rewrite Hrs. split; [lia|].
  replace (10 * Z.of_nat a + 5 * Z.of_nat b + 15 * Z.of_nat c)
    with ((2 * Z.of_nat a + Z.of_nat b + 3 * Z.of_nat c) * 5) by lia.
  apply Z_mod_mult.
Qed.

(** ** Ranking a ranked list again *)

Lemma scored_as_again p job t d :
  scored_as p (scored_as p job t d) t d = scored_as p job t d.
Proof.
  unfold scored_as. cbv zeta.
  match goal with
  | |- setitem _ ?s (setitem _ ?m (setitem _ ?s (setitem _ ?m job))) = _ =>
      rewrite (@setitem_same "matched_skills" m
                 (setitem "relevance_score" s (setitem "matched_skills" m job)))
  end.
  - apply setitem_same. apply lookup_setitem_same.
  - rewrite lookup_setitem_other by discriminate. apply lookup_setitem_same.
Qed.

Lemma score_job_again p job job' :
  score_job p job = Ok job' -> score_job p job' = Ok job'.
Proof.
  intros H.
  destruct (score_job_cases p job) as [(_ & t & d & Ht & Hd & Hok)|[_ Hr]];
    [|congruence].
  assert (Hj : job' = scored_as p job t d) by congruence.
  clear H Hok. subst job'.
  assert (Ht' : get_or (scored_as p job t d) "title" (VStr "") = VStr t).
  { unfold scored_as, get_or in *. cbv zeta.
    now rewrite !lookup_setitem_other by discriminate. }
  assert (Hd' : lookup "description" (scored_as p job t d) = Some (VStr d)).
  { unfold scored_as. cbv zeta.
    now rewrite !lookup_setitem_other by discriminate. }
  assert (Hd'' : get_or (scored_as p job t d) "description" (VStr "") = VStr d)
    by (unfold get_or; now rewrite Hd').
  rewrite (score_job_steps p (scored_as p job t d) Ht' Hd'').
  unfold get_or at 1. rewrite Hd'. cbn [slice_method ebind]. f_equal.
  apply scored_as_again.
Qed.

Lemma insert_desc_front A (x : Z * A) l :
  StronglySorted (fun x y => fst y <= fst x) (x :: l) ->
  insert_desc x l = x :: l.
Proof.
  intros H. destruct l as [|y l]; auto. cbn [insert_desc].
  inversion H as [|? ? _ Hx]; subst. inversion Hx as [|? ? Hy _]; subst.
  destruct (Z.leb_spec (fst y) (fst x)); [reflexivity|lia].
Qed.

Lemma sort_desc_sorted_id A (l : list (Z * A)) :
  StronglySorted (fun x y => fst y <= fst x) l -> sort_desc l = l.
Proof.
  induction l as [|x l IH]; intros H; cbn [sort_desc fold_right]; auto.
  fold (sort_desc l). inversion H; subst. rewrite IH by assumption.
  now apply insert_desc_front.
Qed.

Lemma decorate_sorted A (f : A -> Z) l :
  StronglySorted (fun a b => f b <= f a) l ->
  StronglySorted (fun x y : Z * A => fst y <= fst x)
                 (map (fun a => (f a, a)) l).
Proof.
  induction 1 as [|a l _ IH Ha]; cbn [map]; constructor; auto.
  apply Forall_forall. intros y Hy. apply in_map_iff in Hy as [b [<- Hb]].
  rewrite Forall_forall in Ha. cbn. now apply Ha.
Qed.

(** X9.  Ranking is idempotent: ranking its own result again, for the same
    profile, returns that result unchanged. *)
Theorem rank_idempotent jobs p out :
  rank_jobs_by_relevance jobs p = Ok out ->
  rank_jobs_by_relevance out p = Ok out.
Proof.
  intros Hr.
  destruct (JobFacts.rank_returns_only_after_scoring p jobs Hr) as [scored Hs].
  destruct (JobFacts.rank_after_scoring p jobs Hs) as (out' & Hr' & Hp & Hsort & _).
  rewrite Hr in Hr'. inversion Hr'; subst out'.
  assert (Hfix : Forall (fun job' => score_job p job' = Ok job') scored).
  { apply emap_Forall2 in Hs. clear Hr Hr' Hp Hsort.
    induction Hs as [|job j' jobs scored Hj _ IH]; constructor; auto.
    eapply score_job_again; eauto. }
  apply (Permutation_Forall (Permutation_sym Hp)) in Hfix.
  unfold rank_jobs_by_relevance.
  rewrite (@emap_total _ _ (score_job p) (fun j => j) out Hfix), map_id.
  cbn [ebind]. unfold sorted_reverse.
  assert (Hk : Forall (fun a => relevance_key a = Ok (relevance_score a)) out).
  { eapply Forall_impl; [|exact Hfix]. intros a Ha.
    eapply JobFacts.score_job_key. exact Ha. }
  rewrite (@emap_total _ _ relevance_key relevance_score out Hk). cbn [ebind].
  rewrite combine_decorate.
  rewrite sort_desc_sorted_id by now apply decorate_sorted.
  now rewrite map_snd_decorate.
Qed.

(** ** Removing duplicates *)






End RankFacts.

(* ===================================================================== *)
(** * More about the cache and the Fetch Jobs button *)
(* ===================================================================== *)

Module CacheFacts.
Import Py PyFacts JobRecommendationService StreamlitApp.

Section Cache.

Variable isoformat : Z -> string.
Variable fromisoformat : string -> option datetime.

Lemma load_keeps_world h w : snd (load_jobs_cache fromisoformat h w) = w.
Proof. unfold load_jobs_cache, lift. now destruct (jobs_cache w). Qed.


(** Parsing the text of a naive instant gives the instant back. *)
Hypothesis fromisoformat_isoformat :
  forall t, fromisoformat (isoformat t) = Some (Naive t).

Lemma slice_to_nonempty A (l : list A) n :
  l <> [] -> 0 < n -> slice_to l n <> [].
Proof.
  intros Hl Hn. unfold slice_to.
  destruct (Z.leb_spec 0 n); [|lia].
  destruct l as [|x l]; [congruence|].
  destruct (Z.to_nat n) eqn:E; [lia|]. discriminate.
Qed.

Lemma fetch_keeps_clock titles w :
  utcnow (snd (fetch_jobs titles w)) = utcnow w.
Proof.
  destruct (SourceFacts.fetch_jobs_sends titles w) as (_ & _ & _ & _ & _ & H & _).
  exact H.
Qed.

(** X12.  The button, pressed twice.  With no cache file, and a search whose
    stages go through and rank at least one job, the first press reports
    the [NameError] of [get_recommended_jobs] and leaves the session entry
    as it was, but it has written the cache; a second press within 24
    hours stores the fifteen best jobs of the first search and reports no
    error.  The jobs of a search only ever reach the page through the
    cache. *)
Theorem second_click_serves_first_search user_data recommended w
    p all_jobs w1 unique ranked :
  jobs_cache w = None ->
  extract_user_profile user_data = Ok p ->
  fetch_jobs (firstn 3 (job_titles p)) w = (Ok all_jobs, w1) ->
  dedupe all_jobs = Ok unique ->
  rank_jobs_by_relevance unique p = Ok ranked ->
  ranked <> [] ->
  let saved := snd (save_jobs_cache isoformat (slice_to ranked 15) w1) in
  fetch_jobs_click isoformat fromisoformat user_data recommended w
  = ((recommended, Some (NameError "st")), saved)
  /\ forall recommended' w2,
       jobs_cache w2 = jobs_cache saved ->
       utcnow w2 - utcnow w <= 24 * hour ->
       fetch_jobs_click isoformat fromisoformat user_data recommended' w2
       = ((Some (VList (map VDict (slice_to ranked 15))), None), w2).
Proof.
  intros Hc Hp Hf Hd Hr Hne saved. split.
  - unfold fetch_jobs_click, fetch_jobs_try. unfold bind at 1.
    unfold load_jobs_cache. rewrite Hc. cbn [truthy].
    unfold bind at 1.
    rewrite (@JobEffects.recommended_jobs_stages isoformat user_data 15 w
               p all_jobs w1 unique ranked Hp Hf Hd Hr).
    reflexivity.
  - intros recommended' w2 Hc2 Ht.
    assert (Hclock : utcnow w1 = utcnow w).
    { pose proof (fetch_keeps_clock (firstn 3 (job_titles p)) w) as H.
      now rewrite Hf in H. }
    pose proof (@JobEffects.load_saved isoformat fromisoformat
                  fromisoformat_isoformat (slice_to ranked 15) 24 w1 w2 Hc2)
      as Hl.
    rewrite Hclock in Hl. change (span_hours 24) with true in Hl.
    cbv iota in Hl.
    destruct (Z.gtb_spec (utcnow w2 - utcnow w) (24 * hour)) as [Hgt|_];
      [lia|].
    unfold fetch_jobs_click, fetch_jobs_try. unfold bind at 1. rewrite Hl.
    assert (Htruthy : truthy (VList (map VDict (slice_to ranked 15))) = true).
    { cbn [truthy].
      destruct (slice_to ranked 15) eqn:E; [|reflexivity].
      exfalso. apply (@slice_to_nonempty _ ranked 15); auto. lia. }
    rewrite Htruthy. reflexivity.
Qed.

Lemma search_gives_no_jobs user_data max_results w :
  exists e w', get_recommended_jobs isoformat user_data max_results w
               = (Raise e, w').
Proof.
  unfold get_recommended_jobs.
  unfold bind at 1. unfold lift at 1.
  destruct (extract_user_profile user_data) as [p|e]; [|now eexists _, _].
  unfold bind at 1.
  destruct (fetch_jobs (firstn 3 (job_titles p)) w) as [[all_jobs|e] w1];
    [|now eexists _, _].
  unfold bind at 1. unfold lift at 1.
  destruct (dedupe all_jobs) as [unique|e]; [|now eexists _, _].
  unfold bind at 1. unfold lift at 1.
  destruct (rank_jobs_by_relevance unique p) as [ranked|e]; [|now eexists _, _].
  now eexists _, _.
Qed.

(** X13.  Whatever a press of the button puts into an empty session comes from
    the cache: it is what [load_jobs_cache] returned, it is true, and no
    request was sent and no file written for it.  A press that finds no
    cache file, a stale one or an empty list of jobs stores nothing and
    reports an error. *)
Theorem click_stores_only_cached_jobs user_data w :
  (forall jobs err w',
     fetch_jobs_click isoformat fromisoformat user_data None w
     = ((Some jobs, err), w') ->
     load_jobs_cache fromisoformat 24 w = (Ok jobs, w)
     /\ truthy jobs = true /\ w' = w)
  /\ (forall recommended,
        fst (load_jobs_cache fromisoformat 24 w) = Ok (VList []) ->
        exists e w',
          fetch_jobs_click isoformat fromisoformat user_data recommended w
          = ((recommended, Some e), w')).
Proof.
  pose proof (load_keeps_world 24 w) as Hw.
  split.
  - intros jobs err w' H.
    unfold fetch_jobs_click, fetch_jobs_try in H. unfold bind at 1 in H.
    destruct (load_jobs_cache fromisoformat 24 w) as [[cached|e] w1];
      cbn [snd] in Hw; subst w1.
    + destruct (truthy cached) eqn:Et.
      * unfold ret in H. inversion H; subst. now repeat split.
      * unfold bind at 1 in H.
        destruct (search_gives_no_jobs user_data 15 w) as (e & w2 & Hs).
        rewrite Hs in H. discriminate.
    + discriminate.
  - intros recommended Hl.
    unfold fetch_jobs_click, fetch_jobs_try. unfold bind at 1.
    destruct (load_jobs_cache fromisoformat 24 w) as [[cached|e] w1];
      cbn [fst snd] in Hl, Hw; subst w1; [|discriminate].
    inversion Hl; subst cached.
    cbn [truthy]. unfold bind at 1.
    destruct (search_gives_no_jobs user_data 15 w) as (e & w2 & Hs).
    rewrite Hs. now exists e, w2.
Qed.

End Cache.

End CacheFacts.

(* ===================================================================== *)
(** * More about the agentic answer pipeline *)
(* ===================================================================== *)

Module PipelineFacts.
Import Py AgenticRag.

(** ** Keys and calls *)

Lemma present_In k keys :
  In k (present keys) -> In (Some k) keys /\ k <> EmptyString.
Proof.
  induction keys as [|[x|] keys IH]; cbn [present]; [easy| |].
  - destruct x as [|a x]; cbn [is_empty].
    + intros H. destruct (IH H). split; [now right|assumption].
    + intros [<-|H].
      * split; [now left|discriminate].
      * destruct (IH H). split; [now right|assumption].
  - intros H. destruct (IH H). split; [now right|assumption].
Qed.

Lemma choice_In (seq : list string) k0 n :
  seq <> [] -> In (nth (n mod List.length seq) seq k0) seq.
Proof.
  intros H. apply nth_In. apply Nat.mod_upper_bound.
  destruct seq; [congruence|discriminate].
Qed.

Lemma asks_refl hi w : asks 0 hi w w.
Proof.
  unfold asks. repeat (split; [reflexivity || lia|]).
  exists []. rewrite app_nil_r. repeat split; cbn; auto; lia.
Qed.

Lemma configured_frame w w1 c :
  groq_keys w1 = groq_keys w -> configured w1 c -> configured w c.
Proof. unfold configured. now intros ->. Qed.

Lemma asks_trans lo1 hi1 lo2 hi2 w w1 w2 :
  asks lo1 hi1 w w1 -> asks lo2 hi2 w1 w2 ->
  asks (lo1 + lo2) (hi1 + hi2) w w2.
Proof.
  intros (K1 & R1 & L1 & I1 & P1 & D1 & x1 & C1 & N1 & F1)
         (K2 & R2 & L2 & I2 & P2 & D2 & x2 & C2 & N2 & F2).
  unfold asks. repeat (split; [congruence || lia|]).
  exists (x1 ++ x2)%list. rewrite C2, C1, <- app_assoc.
  split; [reflexivity|]. rewrite length_app. split; [lia|].
  apply Forall_app. split; [assumption|].
  eapply Forall_impl; [|exact F2]. intros c. now apply configured_frame.
Qed.

Lemma asks_weaken lo hi lo' hi' w w' :
  (lo' <= lo)%nat -> (hi <= hi')%nat -> asks lo hi w w' -> asks lo' hi' w w'.
Proof.
  intros Hlo Hhi (K & R & L & I & P & D & x & C & N & F).
  unfold asks. repeat (split; [assumption || lia|]).
  exists x. repeat split; auto; lia.
Qed.

Lemma get_random_llm_spec t w :
  match present (groq_keys w) with
  | [] => get_random_llm default_model t w = (Raise IndexError, w)
  | _ =>
      exists c w1,
        get_random_llm default_model t w = (Ok c, w1)
        /\ groq_keys w1 = groq_keys w /\ random w1 = random w
        /\ llm w1 = llm w /\ resume_index w1 = resume_index w
        /\ project_index w1 = project_index w
        /\ draws w1 = S (draws w) /\ calls w1 = calls w
        /\ forall text, configured w {| by_client := c; prompt := text |}
  end.
Proof.
  unfold get_random_llm, bind, random_choice.
  destruct (present (groq_keys w)) as [|k0 ks] eqn:E; [reflexivity|].
  eexists _, _. split; [reflexivity|]. cbn.
  repeat (split; [reflexivity|]).
  intros text. unfold configured. cbn [by_client api_key model].
  assert (Hin : In (nth (random w (draws w) mod List.length (k0 :: ks))
                        (k0 :: ks) k0) (present (groq_keys w))).
  { rewrite E. apply choice_In. discriminate. }
  apply present_In in Hin as [H1 H2]. now repeat split.
Qed.

Lemma client_as_asked m t w c w' :
  get_random_llm m t w = (Ok c, w') -> temperature c = t.
Proof.
  unfold get_random_llm, bind, random_choice, ret.
  destruct (present (groq_keys w)); intros H; inversion H; reflexivity.
Qed.

Lemma invoke_spec c p w :
  exists r w',
    invoke c p w = (r, w')
    /\ groq_keys w' = groq_keys w /\ random w' = random w
    /\ llm w' = llm w /\ resume_index w' = resume_index w
    /\ project_index w' = project_index w
    /\ draws w' = draws w
    /\ calls w' = (calls w ++ [{| by_client := c; prompt := p |}])%list.
Proof.
  unfold invoke.
  destruct (llm w (List.length (calls w)) {| by_client := c; prompt := p |});
    eexists _, _; (split; [reflexivity|]); cbn; now repeat split.
Qed.

(** One stage of the pipeline: a client is built, and then it is either
    asked once or not at all. *)
Lemma stage_asks A t (p : option string) (found : A) (k : string -> A) w :
  let stage := bind (get_random_llm default_model t)
                    (fun llm => match p with
                                | Some text => bind (invoke llm text)
                                                    (fun r => ret (k r))
                                | None => ret found
                                end) in
  asks 0 1 w (snd (stage w))
  /\ (forall a w', stage w = (Ok a, w') ->
        asks (match p with Some _ => 1 | None => 0 end) 1 w w')
  /\ (present (groq_keys w) = [] -> stage w = (Raise IndexError, w)).
Proof.
  intros stage. unfold stage, bind.
  pose proof (get_random_llm_spec t w) as Hg.
  destruct (present (groq_keys w)) as [|k0 ks].
  - rewrite Hg. cbn [snd].
    split; [apply asks_refl|]. split; [discriminate|reflexivity].
  - destruct Hg as (c & w1 & -> & K & R & L & I & P & D & C & Hc).
    assert (Hz : asks 0 1 w w1).
    { unfold asks. repeat (split; [assumption || lia|]).
      exists []. rewrite app_nil_r. repeat split; cbn; auto; lia. }
    destruct p as [text|].
    + destruct (invoke_spec c text w1)
        as (r & w2 & Hi & K2 & R2 & L2 & I2 & P2 & D2 & C2).
      assert (Hone : asks 1 1 w w2).
      { unfold asks. repeat (split; [congruence || lia|]).
        eexists. split; [rewrite C2, C; reflexivity|]. split; [cbn; lia|].
        constructor; [apply Hc|constructor]. }
      rewrite Hi. destruct r as [content|e]; cbn [snd ret].
      * split; [now apply asks_weaken with 1%nat 1%nat; [lia|lia|]|].
        split; [|discriminate]. intros a w' H. inversion H; now subst.
      * split; [now apply asks_weaken with 1%nat 1%nat; [lia|lia|]|].
        split; discriminate.
    + cbn [snd ret]. split; [exact Hz|]. split; [|discriminate].
      intros a w' H. inversion H; now subst.
Qed.

Lemma route_stage q :
  route_query q
  = bind (get_random_llm default_model 7)
         (fun llm => bind (invoke llm (router_prompt q))
                          (fun r => ret (route_decision r))).
Proof. reflexivity. Qed.

Lemma retrieve_stage q source w :
  retrieve_answer q source w
  = bind (get_random_llm default_model 6)
         (fun llm =>
            match match (selected source "resume" (resume_index w)
                         ++ selected source "project" (project_index w))%list with
                  | [] => None
                  | _ => Some (retriever_prompt
                                 (String.concat (nl ++ nl) (passages q source w)) q)
                  end with
            | Some text => bind (invoke llm text) (fun r => ret r)
            | None => ret no_embeddings
            end) w.
Proof.
  unfold retrieve_answer, passages, bind.
  destruct (get_random_llm default_model 6 w) as [[c|e] w1]; auto.
  destruct (selected source "resume" (resume_index w)
            ++ selected source "project" (project_index w))%list; auto.
  now destruct (invoke c _ w1) as [[r|e] w2].
Qed.

Lemma selected_nil source a index :
  selected source a index = []
  <-> index = None \/ (source <> a /\ source <> "both").
Proof.
  unfold selected. destruct index as [db|]; [|intuition].
  destruct (String.eqb_spec source a) as [Ha|Ha];
    destruct (String.eqb_spec source "both") as [Hb|Hb]; cbn [orb];
    split; intros H; try discriminate; auto;
    destruct H as [H|[H1 H2]]; try discriminate; congruence.
Qed.

Lemma firstn_subset A n (l : list A) x : In x (firstn n l) -> In x l.
Proof.
  revert l. induction n as [|n IH]; intros [|y l]; cbn; try easy.
  intros [H|H]; [now left|right; now apply IH].
Qed.

Lemma selected_passages source a index q :
  (List.length (flat_map (fun db => similarity_search db q)
                         (selected source a index)) <= 4)%nat
  /\ forall d, In d (flat_map (fun db => similarity_search db q)
                              (selected source a index)) ->
               exists db, index = Some db /\ In d (db q)
                          /\ (source = a \/ source = "both").
Proof.
  unfold selected. destruct index as [db|]; [|cbn; split; [lia|easy]].
  destruct (String.eqb_spec source a) as [Ha|Ha];
    destruct (String.eqb_spec source "both") as [Hb|Hb]; cbn [orb flat_map];
    try (split; [cbn; lia|easy]);
    rewrite app_nil_r; unfold similarity_search;
    (split; [rewrite length_firstn; lia|]);
    intros d Hd; exists db; (split; [reflexivity|]);
    (split; [now apply firstn_subset in Hd|auto]).
Qed.

Lemma snoc_differs A (l : list A) x : (l ++ [x])%list <> l.
Proof.
  intros H. apply (f_equal (@List.length A)) in H.
  rewrite length_app in H. cbn in H. lia.
Qed.

(** ** The block of the grader's reply *)

Lemma up_to_last_close_none s :
  up_to_last_close s = None <-> occurs "}"%char s = false.
Proof.
  induction s as [|x s IH]; cbn [up_to_last_close occurs]; [easy|].
  destruct (up_to_last_close s) as [r|].
  - split; [discriminate|]. intros H. apply orb_false_elim in H as [_ H].
    now apply IH in H.
  - rewrite (proj1 IH eq_refl), orb_false_r.
    destruct (Ascii.eqb x "}"%char); easy.
Qed.

Lemma up_to_last_close_exact s r :
  up_to_last_close s = Some r
  <-> exists mid post, s = (mid ++ String "}"%char post)%string
                       /\ r = (mid ++ "}")%string
                       /\ occurs "}"%char post = false.
Proof.
  revert r. induction s as [|x s IH]; intros r; cbn [up_to_last_close].
  - split; [discriminate|]. intros (mid & post & H & _).
    destruct mid; discriminate.
  - destruct (up_to_last_close s) as [r'|] eqn:E.
    + split.
      * intros H. inversion H; subst r.
        destruct (proj1 (IH r') eq_refl) as (mid & post & -> & -> & Hp).
        now exists (String x mid), post.
      * intros (mid & post & Hs & -> & Hp). destruct mid as [|y mid].
        -- cbn in Hs. inversion Hs; subst.
           apply up_to_last_close_none in Hp. congruence.
        -- cbn in Hs. inversion Hs; subst.
           f_equal. cbn. f_equal.
           assert (Hr : Some r' = Some (mid ++ "}")%string)
             by (apply IH; now exists mid, post).
           congruence.
    + pose proof (proj1 (up_to_last_close_none s) E) as Hs'.
      destruct (Ascii.eqb_spec x "}"%char) as [->|Hx].
      * split.
        -- intros H. inversion H; subst. now exists EmptyString, s.
        -- intros (mid & post & Hs & -> & Hp). destruct mid as [|y mid].
           ++ reflexivity.
           ++ cbn in Hs. inversion Hs; subst.
              exfalso. apply (@RagFacts.up_to_last_close_found mid post E).
      * split; [discriminate|].
        intros (mid & post & Hs & -> & Hp). destruct mid as [|y mid].
        -- cbn in Hs. inversion Hs; subst. congruence.
        -- cbn in Hs. inversion Hs; subst.
           exfalso. apply (@RagFacts.up_to_last_close_found mid post E).
Qed.

Lemma after_first_open_exact s rest :
  after_first_open s = Some rest
  <-> exists pre, s = (pre ++ String "{"%char rest)%string
                  /\ occurs "{"%char pre = false.
Proof.
  revert rest. induction s as [|x s IH]; intros rest; cbn [after_first_open].
  - split; [discriminate|]. intros (pre & H & _). destruct pre; discriminate.
  - destruct (Ascii.eqb_spec x "{"%char) as [->|Hx].
    + split.
      * intros H. inversion H; subst. now exists EmptyString.
      * intros (pre & Hs & Hp). destruct pre as [|y pre].
        -- cbn in Hs. now inversion Hs.
        -- cbn in Hs. inversion Hs; subst. cbn in Hp. discriminate.
    + split.
      * intros H. apply IH in H as (pre & -> & Hp).
        exists (String x pre). split; [reflexivity|].
        cbn. rewrite Hp, orb_false_r. now apply Ascii.eqb_neq.
      * intros (pre & Hs & Hp). destruct pre as [|y pre].
        -- cbn in Hs. inversion Hs; congruence.
        -- cbn in Hs. inversion Hs; subst. apply IH. exists pre.
           split; [reflexivity|]. cbn in Hp.
           now apply orb_false_elim in Hp.
Qed.

(** X14.  The block that grading parses runs from the first opening brace of
    the reply to the last closing brace after it: [brace_block] returns
    [block] exactly when the reply is some text without an opening brace,
    then [block], then some text without a closing brace, and [block]
    begins and ends with a brace. *)
Theorem brace_block_first_to_last text block :
  brace_block text = Some block
  <-> exists pre mid post,
        text = (pre ++ block ++ post)%string
        /\ block = ("{" ++ mid ++ "}")%string
        /\ occurs "{"%char pre = false
        /\ occurs "}"%char post = false.
Proof.
  unfold brace_block. split.
  - destruct (after_first_open text) as [rest|] eqn:Ea; [|discriminate].
    destruct (up_to_last_close rest) as [r|] eqn:Ec; [|discriminate].
    cbn [option_map]. intros H. inversion H; subst block.
    apply after_first_open_exact in Ea as (pre & -> & Hpre).
    apply up_to_last_close_exact in Ec as (mid & post & -> & -> & Hpost).
    exists pre, mid, post. repeat split; auto.
    cbn. now rewrite RagFacts.append_assoc.
  - intros (pre & mid & post & -> & -> & Hpre & Hpost).
    assert (Ea : after_first_open (pre ++ ("{" ++ mid ++ "}") ++ post)
                 = Some ((mid ++ "}") ++ post)%string).
    { apply after_first_open_exact. now exists pre. }
    rewrite Ea.
    assert (Ec : up_to_last_close ((mid ++ "}") ++ post)
                 = Some (mid ++ "}")%string).
    { apply up_to_last_close_exact. exists mid, post.
      repeat split; auto. now rewrite RagFacts.append_assoc. }
    rewrite Ec. reflexivity.
Qed.

Section Library.

Variable json_loads : string -> option value.
Variable repr : value -> string.

(** ** Grader *)

(** X15.  Grading passes an answer only on an explicit verdict: the first
    component of [grade_text] is true exactly when the reply has a block
    that [json.loads] turns into an object whose grade is the string
    pass.  A reply without a block, a block that is no JSON, a document
    that is no object, a missing grade and any other grade all fail. *)
Theorem grade_passes_iff text :
  fst (grade_text json_loads text) = true
  <-> exists block d,
        brace_block text = Some block
        /\ json_loads block = Some (VDict d)
        /\ lookup "grade" d = Some (VStr "pass").
Proof.
  unfold grade_text, grade_try. split.
  - destruct (brace_block text) as [block|]; [|discriminate].
    destruct (json_loads block) as [[| | | | | |d]|] eqn:Ej;
      cbn [get_method ebind fst]; try discriminate.
    unfold get_or. intros H. exists block, d. repeat split; auto.
    destruct (lookup "grade" d) as [[| | | |s| |]|]; try discriminate.
    cbn [is_pass] in H. apply String.eqb_eq in H. now subst.
  - intros (block & d & -> & -> & Hg). cbn [get_method ebind fst].
    unfold get_or. now rewrite Hg.
Qed.

Lemma grade_stage q answer :
  grade_answer json_loads q answer
  = bind (get_random_llm default_model 0)
         (fun llm => bind (invoke llm (grader_prompt q answer))
                          (fun r => ret (grade_text json_loads r))).
Proof. reflexivity. Qed.

Lemma correction_stage feedback w :
  bind (get_random_llm default_model 7)
       (fun llm => invoke llm (correction_prompt repr feedback)) w
  = bind (get_random_llm default_model 7)
         (fun llm => bind (invoke llm (correction_prompt repr feedback))
                          (fun r => ret r)) w.
Proof.
  unfold bind.
  destruct (get_random_llm default_model 7 w) as [[c|e] w1]; auto.
  now destruct (invoke c _ w1) as [[r|e] w2].
Qed.

(** ** Without a key *)

(** X16.  With none of the five keys set to a text that is not empty, nothing
    can be asked: the router, the retriever, the grader and the pipeline
    raise [IndexError] where the key is chosen, before any index is read
    and without a call. *)
Theorem no_key_no_call q source answer w :
  present (groq_keys w) = [] ->
  route_query q w = (Raise IndexError, w)
  /\ retrieve_answer q source w = (Raise IndexError, w)
  /\ grade_answer json_loads q answer w = (Raise IndexError, w)
  /\ agentic_rag_pipeline json_loads repr q w = (Raise IndexError, w).
Proof.
  intros H.
  assert (Hr : route_query q w = (Raise IndexError, w)).
  { rewrite route_stage.
    apply (@stage_asks _ 7 (Some (router_prompt q)) "" route_decision w), H. }
  split; [exact Hr|]. split; [|split].
  - rewrite retrieve_stage.
    apply (@stage_asks _ 6 _ no_embeddings (fun r => r) w), H.
  - rewrite grade_stage.
    apply (@stage_asks _ 0 (Some (grader_prompt q answer)) (false, VNone)
             (grade_text json_loads) w), H.
  - unfold agentic_rag_pipeline. unfold bind at 1. now rewrite Hr.
Qed.

(** ** The retriever *)

Lemma passages_eq q source w :
  passages q source w
  = ((match resume_index w with
      | Some db => if String.eqb source "resume" || String.eqb source "both"
                   then firstn 4 (db q) else []
      | None => []
      end)
     ++ match project_index w with
        | Some db => if String.eqb source "project" || String.eqb source "both"
                     then firstn 4 (db q) else []
        | None => []
        end)%list.
Proof.
  unfold passages, selected, similarity_search. rewrite flat_map_app.
  destruct (resume_index w), (project_index w);
    destruct (String.eqb source "resume" || String.eqb source "both");
    destruct (String.eqb source "project" || String.eqb source "both");
    cbn [flat_map]; now rewrite ?app_nil_r.
Qed.

Lemma selected_some source a index db :
  index = Some db -> source = a \/ source = "both" ->
  selected source a index = [db].
Proof.
  intros -> Hs. unfold selected.
  destruct (String.eqb_spec source a) as [Ha|Ha];
    destruct (String.eqb_spec source "both") as [Hb|Hb];
    try reflexivity.
  now destruct Hs.
Qed.

(** X17.  With a key at hand, the retriever answers with its sentence about
    missing embeddings, and asks no model, exactly when no index is both
    selected by the source and present.  When one is, it asks exactly
    once, at temperature 0.6 and with a key of the environment: the one
    call it adds to the log has the retriever's prompt around the first
    four passages of the resume index (if the source is resume or both)
    followed by the first four of the project index (if the source is
    project or both), so around at most eight passages, and what it
    returns is the content of the reply to that call, or the exception of
    the failed request. *)
Theorem retrieve_sentinel_iff q source w :
  present (groq_keys w) <> [] ->
  let out := retrieve_answer q source w in
  let taken := fun (a : string) (index : option (string -> list string)) =>
                 match index with
                 | Some db => if String.eqb source a || String.eqb source "both"
                              then firstn 4 (db q) else []
                 | None => []
                 end in
  let docs := (taken "resume" (resume_index w)
               ++ taken "project" (project_index w))%list in
  (((resume_index w = None \/ (source <> "resume" /\ source <> "both"))
    /\ (project_index w = None \/ (source <> "project" /\ source <> "both")))
   <-> (fst out = Ok no_embeddings /\ calls (snd out) = calls w))
  /\ (((exists db, resume_index w = Some db
                   /\ (source = "resume" \/ source = "both"))
       \/ (exists db, project_index w = Some db
                      /\ (source = "project" \/ source = "both"))) ->
      exists c,
        let asked := {| by_client := c;
                        prompt := retriever_prompt
                                    (String.concat (nl ++ nl) docs) q |} in
        calls (snd out) = (calls w ++ [asked])%list
        /\ temperature c = 6
        /\ configured w asked
        /\ fst out = match llm w (List.length (calls w)) asked with
                     | Some content => Ok content
                     | None => Raise RequestException
                     end)
  /\ (List.length docs <= 8)%nat
  /\ (source <> "both" -> (List.length docs <= 4)%nat).
Proof.
  intros Hk out taken docs. subst out.
  assert (Hdocs : passages q source w = docs) by apply passages_eq.
  pose proof (get_random_llm_spec 6 w) as Hg.
  destruct (present (groq_keys w)) as [|k0 ks]; [congruence|].
  destruct Hg as (c & w1 & Hget & _ & _ & L & _ & _ & _ & C & Hc).
  assert (Hrun :
            retrieve_answer q source w
            = match (selected source "resume" (resume_index w)
                     ++ selected source "project" (project_index w))%list with
              | [] => (Ok no_embeddings, w1)
              | _ => invoke c (retriever_prompt
                                 (String.concat (nl ++ nl) docs) q) w1
              end).
  { rewrite <- Hdocs. unfold retrieve_answer, bind, passages. rewrite Hget.
    now destruct (selected source "resume" (resume_index w)
                  ++ selected source "project" (project_index w))%list. }
  assert (Hinvoke :
            forall p,
              invoke c p w1
              = (match llm w (List.length (calls w))
                         {| by_client := c; prompt := p |} with
                 | Some content => Ok content
                 | None => Raise RequestException
                 end,
                 snd (invoke c p w1))
              /\ calls (snd (invoke c p w1))
                 = (calls w ++ [{| by_client := c; prompt := p |}])%list).
  { intros p. unfold invoke. rewrite L, C.
    now destruct (llm w (List.length (calls w))
                      {| by_client := c; prompt := p |}). }
  rewrite <- !selected_nil.
  split; [|split; [|split]].
  - rewrite Hrun.
    destruct (selected source "resume" (resume_index w)
              ++ selected source "project" (project_index w))%list
      as [|db dbs] eqn:E.
    + apply app_eq_nil in E as [E1 E2]. cbn [fst snd]. now repeat split.
    + split.
      * intros [E1 E2]. rewrite E1, E2 in E. discriminate.
      * intros [_ Hcalls]. exfalso.
        rewrite (proj2 (Hinvoke _)) in Hcalls.
        now apply snoc_differs in Hcalls.
  - intros Hsel. exists c. cbv zeta.
    assert (Hne : (selected source "resume" (resume_index w)
                   ++ selected source "project" (project_index w))%list <> []).
    { intros E. apply app_eq_nil in E as [E1 E2].
      destruct Hsel as [(db & Hi & Hs)|(db & Hi & Hs)].
      - rewrite (selected_some Hi Hs) in E1. discriminate.
      - rewrite (selected_some Hi Hs) in E2. discriminate. }
    rewrite Hrun.
    destruct (selected source "resume" (resume_index w)
              ++ selected source "project" (project_index w))%list
      as [|db dbs]; [congruence|].
    destruct (Hinvoke (retriever_prompt (String.concat (nl ++ nl) docs) q))
      as [Hr Hcalls].
    split; [exact Hcalls|].
    split; [now apply client_as_asked in Hget|].
    split; [apply Hc|].
    rewrite Hr. reflexivity.
  - rewrite <- Hdocs. unfold passages. rewrite flat_map_app, length_app.
    pose proof (@selected_passages source "resume" (resume_index w) q) as [Lr _].
    pose proof (@selected_passages source "project" (project_index w) q) as [Lp _].
    lia.
  - intros Hb. rewrite <- Hdocs. unfold passages.
    rewrite flat_map_app, length_app.
    pose proof (@selected_passages source "resume" (resume_index w) q) as [Lr _].
    pose proof (@selected_passages source "project" (project_index w) q) as [Lp _].
    destruct (String.eqb_spec source "resume") as [Hr|Hr].
    + assert (E : selected source "project" (project_index w) = []).
      { apply selected_nil. right. split; [subst; discriminate|exact Hb]. }
      rewrite E in *. cbn [flat_map List.length] in *. lia.
    + assert (E : selected source "resume" (resume_index w) = []).
      { apply selected_nil. right. now split. }
      rewrite E in *. cbn [flat_map List.length] in *. lia.
Qed.

(** ** The pipeline *)

(** X18.  The pipeline never loops: whatever the models answer, it makes at
    most four calls, each with a key of the environment and the default
    model, and changes nothing else; when it returns an answer it has
    made at least two, the router's and the grader's. *)
Theorem pipeline_calls_bounded q w :
  asks 0 4 w (snd (agentic_rag_pipeline json_loads repr q w))
  /\ forall answer w',
       agentic_rag_pipeline json_loads repr q w = (Ok answer, w') ->
       asks 2 4 w w'.
Proof.
  assert (H : forall r,
            r = agentic_rag_pipeline json_loads repr q w ->
            asks 0 4 w (snd r)
            /\ forall answer w', r = (Ok answer, w') -> asks 2 4 w w');
    [|destruct (H _ eq_refl) as [H0 H1]; split; [exact H0|];
      intros answer w' Hr; now apply H1 with answer].
  intros r Hr.
  unfold agentic_rag_pipeline in Hr. unfold bind at 1 in Hr.
  destruct (@stage_asks _ 7 (Some (router_prompt q)) "" route_decision w)
    as (R0 & R1 & _).
  rewrite <- route_stage in R0, R1.
  destruct (route_query q w) as [[source|e] w1].
  2: { subst r. split; [|discriminate]. cbn [snd] in *.
       now apply asks_weaken with 0%nat 1%nat; [lia|lia|]. }
  specialize (R1 source w1 eq_refl). clear R0.
  unfold bind at 1 in Hr.
  destruct (@stage_asks _ 6
              (match (selected source "resume" (resume_index w1)
                      ++ selected source "project" (project_index w1))%list with
               | [] => None
               | _ => Some (retriever_prompt
                              (String.concat (nl ++ nl) (passages q source w1)) q)
               end) no_embeddings (fun r => r) w1) as (A0 & A1 & _).
  rewrite <- retrieve_stage in A0, A1.
  destruct (retrieve_answer q source w1) as [[answer|e] w2].
  2: { subst r. split; [|discriminate]. cbn [snd] in *.
       apply asks_weaken with (1 + 0)%nat (1 + 1)%nat; [lia|lia|].
       now apply asks_trans with w1. }
  assert (A : asks 0 1 w1 w2).
  { apply asks_weaken with
      (match match (selected source "resume" (resume_index w1)
                    ++ selected source "project" (project_index w1))%list with
             | [] => None
             | _ => Some (retriever_prompt
                            (String.concat (nl ++ nl) (passages q source w1)) q)
             end with Some _ => 1 | None => 0 end)%nat 1%nat;
      [lia|lia|].
    now apply A1 with answer. }
  clear A0 A1.
  pose proof (asks_trans R1 A) as RA.
  unfold bind at 1 in Hr.
  destruct (@stage_asks _ 0 (Some (grader_prompt q answer)) (false, VNone)
              (grade_text json_loads) w2) as (G0 & G1 & _).
  rewrite <- grade_stage in G0, G1.
  destruct (grade_answer json_loads q answer w2) as [[[passed feedback]|e] w3].
  2: { subst r. split; [|discriminate]. cbn [snd] in *.
       apply asks_weaken with (1 + 0 + 0)%nat (1 + 1 + 1)%nat; [lia|lia|].
       now apply asks_trans with w2. }
  specialize (G1 _ w3 eq_refl). clear G0.
  pose proof (asks_trans RA G1) as RAG.
  destruct passed; cbn [negb] in Hr.
  - subst r. unfold ret. cbn [snd]. split.
    + now apply asks_weaken with (1 + 0 + 1)%nat (1 + 1 + 1)%nat; [lia|lia|].
    + intros a w' H. inversion H; subst.
      now apply asks_weaken with (1 + 0 + 1)%nat (1 + 1 + 1)%nat; [lia|lia|].
  - rewrite correction_stage in Hr.
    destruct (@stage_asks _ 7 (Some (correction_prompt repr feedback)) ""
                (fun r => r) w3) as (C0 & C1 & _).
    subst r. split.
    + apply asks_weaken with (1 + 0 + 1 + 0)%nat (1 + 1 + 1 + 1)%nat;
        [lia|lia|].
      now apply asks_trans with w3.
    + intros a w' H. specialize (C1 a w' H).
      apply asks_weaken with (1 + 0 + 1 + 1)%nat (1 + 1 + 1 + 1)%nat;
        [lia|lia|].
      now apply asks_trans with w3.
Qed.

(** X19.  An answer that the grader passes is returned as the retriever gave
    it, with no further call: if routing and retrieval go through and the
    reply of the grader holds an object with the grade pass, the pipeline
    returns the retrieved answer in the world the grader left. *)
Theorem passed_answer_returned q w source w1 answer w2 grader w3 text w4
    block d :
  route_query q w = (Ok source, w1) ->
  retrieve_answer q source w1 = (Ok answer, w2) ->
  get_random_llm default_model 0 w2 = (Ok grader, w3) ->
  invoke grader (grader_prompt q answer) w3 = (Ok text, w4) ->
  brace_block text = Some block ->
  json_loads block = Some (VDict d) ->
  lookup "grade" d = Some (VStr "pass") ->
  agentic_rag_pipeline json_loads repr q w = (Ok answer, w4).
Proof.
  intros Hr Ha Hl Hi Hb Hj Hg.
  pose proof (@RagFacts.run_grade_answer json_loads q answer w2 grader w3
                text w4 Hl Hi) as Hga.
  unfold agentic_rag_pipeline.
  unfold bind at 1. rewrite Hr.
  unfold bind at 1. rewrite Ha.
  unfold bind at 1. rewrite Hga.
  unfold grade_text, grade_try. rewrite Hb, Hj.
  cbn [get_method ebind]. unfold get_or at 1. rewrite Hg. reflexivity.
Qed.

End Library.

End PipelineFacts.

(* ===================================================================== *)
(** * The further statements on sample inputs *)
(* ===================================================================== *)

Module MoreSamples.
Import Py JobRecommendationService StreamlitApp.

Lemma profile_invariants_witness :
  exists p,
    extract_user_profile (candidate_data sample_candidate) = Ok p
    /\ NoDup (skills p)
    /\ (forall s, In s (skills p) -> lower s = s)
    /\ incl (job_titles p) known_titles.
Proof.
  destruct (extract_user_profile (candidate_data sample_candidate))
    as [p|e] eqn:Hp; [|vm_compute in Hp; discriminate].
  exists p. split; [reflexivity|].
  destruct (@ProfileFacts.profile_invariants
              (candidate_data sample_candidate) p Hp)
    as (H1 & H2 & _ & H4 & _).
  repeat split; assumption.
Defined.

Lemma scalar_field_raises_witness :
  extract_user_profile [("name", VStr "Asha"); ("tools", VInt 3)]
  = Raise TypeError.
Proof.
  apply (@ProfileFacts.scalar_field_raises
           [("name", VStr "Asha"); ("tools", VInt 3)] "tools" (VInt 3)).
  - right. left. reflexivity.
  - reflexivity.
  - reflexivity.
Defined.

Lemma sources_normalise_witness :
  let w := answering
             (VDict [("data", VList [VDict [("job_title", VStr "AI Engineer")]])]) in
  exists jobs w' job,
    search_jobs_jsearch "AI Engineer" 15 w = (Ok jobs, w')
    /\ In job jobs
    /\ map fst job = posting_keys
    /\ lookup "source" job = Some (VStr "JSearch").
Proof.
  intros w.
  destruct (search_jobs_jsearch "AI Engineer" 15 w) as [[jobs|e] w'] eqn:E;
    [|vm_compute in E; discriminate].
  destruct jobs as [|job jobs]; [vm_compute in E; discriminate|].
  exists (job :: jobs), w', job.
  split; [reflexivity|]. split; [now left|].
  exact (proj1 (@SourceFacts.sources_normalise w "AI Engineer" 15)
               (job :: jobs) w' job E (or_introl eq_refl)).
Defined.

Lemma malformed_row_empties_batch_witness :
  let d := [("data", VList [VDict [("job_title", VStr "AI Engineer")];
                            VStr "advert"])] in
  unset (RAPIDAPI_KEY (answering (VDict d))) = false
  /\ exists w', search_jobs_jsearch "AI Engineer" 15 (answering (VDict d))
                = (Ok [], w').
Proof.
  intros d. split; [reflexivity|].
  apply (proj2 (proj1 (@SourceFacts.malformed_row_empties_batch
                         (answering (VDict d)) "AI Engineer" 15)
                      d [VDict [("job_title", VStr "AI Engineer")]; VStr "advert"]
                      eq_refl (fun _ => eq_refl) eq_refl)).
  right. left. reflexivity.
Defined.


Lemma rank_keeps_fields_and_bounds_witness :
  exists out job',
    rank_jobs_by_relevance sample_jobs sample_profile = Ok out
    /\ In job' out
    /\ exists job,
         In job sample_jobs
         /\ lookup "company" job' = lookup "company" job
         /\ 0 <= relevance_score job' <= 85
         /\ relevance_score job' mod 5 = 0.
Proof.
  destruct (rank_jobs_by_relevance sample_jobs sample_profile)
    as [out|e] eqn:E; [|vm_compute in E; discriminate].
  destruct out as [|job' out]; [vm_compute in E; discriminate|].
  exists (job' :: out), job'. split; [reflexivity|]. split; [now left|].
  destruct (@RankFacts.rank_keeps_fields_and_bounds
              sample_jobs sample_profile (job' :: out) job' E
              (or_introl eq_refl))
    as (job & Hin & Hkeep & _ & Hb & Hm).
  exists job. split; [exact Hin|]. split; [|split; [exact Hb|exact Hm]].
  apply Hkeep; discriminate.
Defined.

Lemma rank_idempotent_witness :
  exists out,
    rank_jobs_by_relevance sample_jobs sample_profile = Ok out
    /\ rank_jobs_by_relevance out sample_profile = Ok out.
Proof.
  destruct (rank_jobs_by_relevance sample_jobs sample_profile)
    as [out|e] eqn:E; [|vm_compute in E; discriminate].
  exists out. split; [reflexivity|].
  exact (@RankFacts.rank_idempotent sample_jobs sample_profile out E).
Defined.



Lemma second_click_serves_first_search_witness :
  let user_data := candidate_data sample_candidate in
  let w := answering
             (VDict [("data", VList [VDict [("job_title", VStr "AI Engineer");
                                            ("employer_name", VStr "Acme");
                                            ("job_description", VStr "Python and RAG")]])]) in
  exists ranked saved,
    ranked <> []
    /\ fetch_jobs_click decimal_isoformat decimal_fromisoformat user_data None w
       = ((None, Some (NameError "st")), saved)
    /\ fetch_jobs_click decimal_isoformat decimal_fromisoformat user_data None
         (later w 3 (jobs_cache saved))
       = ((Some (VList (map VDict (slice_to ranked 15))), None),
          later w 3 (jobs_cache saved)).
Proof.
  intros user_data w.
  destruct (extract_user_profile user_data) as [p|] eqn:Hp;
    [|vm_compute in Hp; discriminate].
  destruct (fetch_jobs (firstn 3 (job_titles p)) w) as [[all_jobs|e] w1] eqn:Hf.
  2: { exfalso. vm_compute in Hp. inversion Hp; subst p.
       vm_compute in Hf. discriminate. }
  destruct (dedupe all_jobs) as [unique|] eqn:Hd.
  2: { exfalso. vm_compute in Hp. inversion Hp; subst p.
       vm_compute in Hf. inversion Hf; subst all_jobs.
       vm_compute in Hd. discriminate. }
  destruct (rank_jobs_by_relevance unique p) as [ranked|] eqn:Hr.
  2: { exfalso. vm_compute in Hp. inversion Hp; subst p.
       vm_compute in Hf. inversion Hf; subst all_jobs.
       vm_compute in Hd. inversion Hd; subst unique.
       vm_compute in Hr. discriminate. }
  assert (Hne : ranked <> []).
  { intros ->. vm_compute in Hp. inversion Hp; subst p.
    vm_compute in Hf. inversion Hf; subst all_jobs.
    vm_compute in Hd. inversion Hd; subst unique.
    vm_compute in Hr. discriminate. }
  exists ranked, (snd (save_jobs_cache decimal_isoformat (slice_to ranked 15) w1)).
  split; [exact Hne|].
  destruct (@CacheFacts.second_click_serves_first_search
              decimal_isoformat decimal_fromisoformat Samples.decimal_roundtrip
              user_data None w p all_jobs w1 unique ranked
              eq_refl Hp Hf Hd Hr Hne) as [H1 H2].
  split; [exact H1|].
  apply H2; [reflexivity|]. vm_compute. discriminate.
Defined.

Lemma click_stores_only_cached_jobs_witness :
  fst (load_jobs_cache decimal_fromisoformat 24 offline) = Ok (VList [])
  /\ exists e w',
       fetch_jobs_click decimal_isoformat decimal_fromisoformat
         (candidate_data sample_candidate) None offline
       = ((None, Some e), w').
Proof.
  split; [reflexivity|].
  exact (proj2 (@CacheFacts.click_stores_only_cached_jobs
                  decimal_isoformat decimal_fromisoformat
                  (candidate_data sample_candidate) offline)
               None eq_refl).
Defined.

End MoreSamples.

Module MoreRagSamples.
Import Py AgenticRag.

Lemma brace_block_first_to_last_witness :
  brace_block "note {a} and {b} end" = Some "{a} and {b}"
  /\ exists pre mid post,
       "note {a} and {b} end" = (pre ++ "{a} and {b}" ++ post)%string
       /\ "{a} and {b}" = ("{" ++ mid ++ "}")%string
       /\ occurs "{"%char pre = false
       /\ occurs "}"%char post = false.
Proof.
  split; [reflexivity|].
  apply (proj1 (@PipelineFacts.brace_block_first_to_last
                  "note {a} and {b} end" "{a} and {b}")).
  reflexivity.
Defined.

Lemma grade_passes_iff_witness :
  brace_block verdict
  = Some ("{" ++ dq ++ "grade" ++ dq ++ ": " ++ dq ++ "pass" ++ dq ++ "}")%string
  /\ fst (grade_text sample_loads verdict) = true.
Proof.
  split; [reflexivity|].
  apply (proj2 (@PipelineFacts.grade_passes_iff sample_loads verdict)).
  exists ("{" ++ dq ++ "grade" ++ dq ++ ": " ++ dq ++ "pass" ++ dq ++ "}")%string,
         [("grade", VStr "pass")].
  repeat split; reflexivity.
Defined.

Lemma no_key_no_call_witness :
  present (groq_keys keyless) = []
  /\ agentic_rag_pipeline sample_loads (fun _ => EmptyString)
       "How long did I work?" keyless
     = (Raise IndexError, keyless).
Proof.
  split; [reflexivity|].
  apply (@PipelineFacts.no_key_no_call sample_loads (fun _ => EmptyString)
           "How long did I work?" "resume" "" keyless).
  reflexivity.
Defined.

Lemma retrieve_sentinel_iff_witness :
  present (groq_keys sample_world) <> []
  /\ fst (retrieve_answer "Which projects?" "project" sample_world)
     = Ok no_embeddings
  /\ calls (snd (retrieve_answer "Which projects?" "project" sample_world))
     = calls sample_world
  /\ exists c,
       calls (snd (retrieve_answer "How long did I work?" "resume" sample_world))
       = [{| by_client := c;
             prompt := retriever_prompt "Backend engineer, 2021-2024"
                                        "How long did I work?" |}]
       /\ temperature c = 6
       /\ fst (retrieve_answer "How long did I work?" "resume" sample_world)
          = Ok " Resume ".
Proof.
  assert (Hk : present (groq_keys sample_world) <> []) by discriminate.
  split; [exact Hk|].
  destruct (proj1 (proj1 (@PipelineFacts.retrieve_sentinel_iff
                            "Which projects?" "project" sample_world Hk))) as [H1 H2].
  { split.
    - right. split; discriminate.
    - left. reflexivity. }
  split; [exact H1|]. split; [exact H2|].
  destruct (proj1 (proj2 (@PipelineFacts.retrieve_sentinel_iff
                            "How long did I work?" "resume" sample_world Hk)))
    as (c & Hcalls & Ht & _ & Hout).
  { left. eexists. split; [reflexivity|now left]. }
  exists c. split; [exact Hcalls|]. split; [exact Ht|exact Hout].
Defined.

Lemma pipeline_calls_bounded_witness :
  exists answer w',
    agentic_rag_pipeline sample_loads (fun _ => EmptyString)
      "How long did I work?" sample_world = (Ok answer, w')
    /\ asks 2 4 sample_world w'.
Proof.
  destruct (agentic_rag_pipeline sample_loads (fun _ => EmptyString)
              "How long did I work?" sample_world) as [[answer|e] w'] eqn:E;
    [|vm_compute in E; discriminate].
  exists answer, w'. split; [reflexivity|].
  exact (proj2 (@PipelineFacts.pipeline_calls_bounded
                  sample_loads (fun _ => EmptyString)
                  "How long did I work?" sample_world)
               answer w' E).
Defined.

Lemma passed_answer_returned_witness :
  let q := "How long did I work?" in
  fst (agentic_rag_pipeline sample_loads (fun _ => EmptyString) q lenient)
  = Ok "Three years of backend work."
  /\ List.length
       (calls (snd (agentic_rag_pipeline sample_loads (fun _ => EmptyString)
                      q lenient)))
     = 3%nat.
Proof.
  intros q.
  set (w1 := snd (route_query q lenient)).
  set (answer := "Three years of backend work.").
  set (w2 := snd (retrieve_answer q "resume" w1)).
  set (grader := {| api_key := "gsk-1"; model := default_model;
                    temperature := 0 |}).
  set (w3 := snd (get_random_llm default_model 0 w2)).
  set (w4 := snd (invoke grader (grader_prompt q answer) w3)).
  rewrite (@PipelineFacts.passed_answer_returned
             sample_loads (fun _ => EmptyString)
             q lenient "resume" w1 answer w2 grader w3 verdict w4
             ("{" ++ dq ++ "grade" ++ dq ++ ": " ++ dq ++ "pass" ++ dq ++ "}")%string
             [("grade", VStr "pass")]
             eq_refl eq_refl eq_refl eq_refl eq_refl eq_refl eq_refl).
  split; reflexivity.
Defined.

End MoreRagSamples.
